(** * Agenda tracker: a shallow embedding of [database.py] and [app.py]

    The three SQLite tables become lists of records in rowid order (the
    [daily_targets] table, keyed by its primary key, becomes a finite map),
    every SQL statement becomes a function on the store, and every Flask
    handler becomes a function from a request and a store to a response and
    a new store.  Text values are byte strings; SQLite compares them with
    its BINARY collation, which is [String.compare]. *)

From Stdlib Require Import ZArith Ascii String DecimalString Sorted Permutation.
From Stdlib Require Import OrderedTypeEx.
From stdpp Require Import base decidable option list functions sorting gmap strings.

Set Warnings "-register-all,-clear-no-such-hyp".

(** ** Text order (BINARY collation) *)

Module Text.

Definition lt (a b : string) : Prop := String.ltb a b = true.
Definition le (a b : string) : Prop := String.leb a b = true.

#[global] Instance lt_dec a b : Decision (lt a b).
Proof. unfold lt. apply _. Defined.
#[global] Instance le_dec a b : Decision (le a b).
Proof. unfold le. apply _. Defined.

(** SQL's two-argument [MAX] and [MIN] on text. *)
Definition max (a b : string) : string := if decide (le a b) then b else a.
Definition min (a b : string) : string := if decide (le a b) then a else b.

End Text.

(** ** Python's rendering of integers *)

(** [str(z)] *)
Definition str (z : Z) : string := NilZero.string_of_int (Z.to_int z).

(** [f"{z:0{w}d}"]: the sign, then zeros up to the width, then the digits. *)
Fixpoint zeros (n : nat) : string :=
  match n with O => "" | S n => String "0" (zeros n) end.

Definition fmt_0d (w : nat) (z : Z) : string :=
  let sign := if (z <? 0)%Z then "-" else "" in
  let digits := str (Z.abs z) in
  sign +:+ zeros (w - String.length sign - String.length digits) +:+ digits.

(** [sub in s] on strings *)
Definition contains (sub s : string) : Prop :=
  exists pre post, s = pre +:+ sub +:+ post.

(** SQLite's [LOWER]: only the ASCII letters are folded. *)
Definition lower_ascii (a : ascii) : ascii :=
  let n := N_of_ascii a in
  if ((65 <=? n) && (n <=? 90))%N then ascii_of_N (n + 32) else a.

Fixpoint LOWER (s : string) : string :=
  match s with
  | EmptyString => EmptyString
  | String a s => String (lower_ascii a) (LOWER s)
  end.

(** ** SQL building blocks *)

(** [GROUP BY key]: one group per distinct key, each holding its rows in
    scan order; the groups are in the order in which the scan leaves
    them. *)
Definition group_by {A K} `{EqDecision K} (key : A -> K) (l : list A)
    : list (K * list A) :=
  (fun k => (k, filter (fun x => key x = k) l)) <$> remove_dups (key <$> l).

(** [ORDER BY]: the sort is stable.  Rows with equal sort keys come out in
    the order in which they went in, which for the rows of one table is the
    order of their rowids; with [LIMIT 1] the row returned is therefore the
    first inserted of those that sort first. *)
Fixpoint insert_by {A} (R : relation A) `{forall x y, Decision (R x y)}
    (x : A) (l : list A) : list A :=
  match l with
  | [] => [x]
  | y :: l' => if decide (R x y) then x :: l else y :: insert_by R x l'
  end.

Definition order_by {A} (R : relation A) `{forall x y, Decision (R x y)}
    (l : list A) : list A :=
  foldr (insert_by R) [] l.

(** [COUNT( * )] as a Python int *)
Definition COUNT {A} (l : list A) : Z := Z.of_nat (length l).

(** ** database.py *)

Module database.

(** The [response] column: its [CHECK] constraint admits six values. *)
Inductive Response := R_A | R_B | R_C | R_NA | R_DNP | R_CATCHUP.

#[global] Instance Response_eq_dec : EqDecision Response.
Proof. solve_decision. Defined.

Definition response_str (r : Response) : string :=
  match r with
  | R_A => "A" | R_B => "B" | R_C => "C"
  | R_NA => "NA" | R_DNP => "DNP" | R_CATCHUP => "CATCHUP"
  end.

(** The [CHECK(response IN (...))] constraint, applied to a value about to
    be written. *)
Definition check_response (s : string) : option Response :=
  if decide (s = "A") then Some R_A
  else if decide (s = "B") then Some R_B
  else if decide (s = "C") then Some R_C
  else if decide (s = "NA") then Some R_NA
  else if decide (s = "DNP") then Some R_DNP
  else if decide (s = "CATCHUP") then Some R_CATCHUP
  else None.

Record Call := {
  calls_id : Z;
  calls_name : string;
  calls_response : Response;
  calls_date : string;
  calls_created_at : string
}.

Record Contact := {
  contacts_id : Z;
  contacts_name : string;
  contacts_date : string;
  contacts_created_at : string
}.

#[global] Instance Call_eq_dec : EqDecision Call.
Proof. solve_decision. Defined.
#[global] Instance Contact_eq_dec : EqDecision Contact.
Proof. solve_decision. Defined.

(** The database: [daily_targets] by its primary key, the two other tables
    in rowid order, and the AUTOINCREMENT counters of [sqlite_sequence]. *)
Record Store := {
  daily_targets : gmap string Z;
  calls : list Call;
  calls_seq : Z;
  contacts : list Contact;
  contacts_seq : Z
}.

Definition empty_store : Store :=
  {| daily_targets := ∅; calls := []; calls_seq := 0;
     contacts := []; contacts_seq := 0 |}.

(** Exceptions a database function can raise. *)
Inductive Exn :=
| ValueError (msg : string)
| IntegrityError (msg : string).

(** The message of the IntegrityError for the [CHECK] constraint. *)
Definition check_failed : string :=
  "CHECK constraint failed: response IN ('A', 'B', 'C', 'NA', 'DNP', 'CATCHUP')".

(** [str(e)] *)
Definition exn_str (e : Exn) : string :=
  match e with ValueError msg => msg | IntegrityError msg => msg end.

Definition get_daily_target (target_date : string) (st : Store) : option Z :=
  daily_targets st !! target_date.

(** An integer that [execute] can bind as a statement parameter: SQLite
    integers have 64 bits, and for any other Python int the binding raises
    OverflowError before the statement runs.  The functions below that take
    an integer parameter give the effect of their statement on an integer
    that was bound; the OverflowError is raised in them and caught nowhere,
    so it is the handlers of [app] that show it (see [app.bound]). *)
Definition bindable (z : Z) : Prop := (- 2 ^ 63 <= z < 2 ^ 63)%Z.

#[global] Instance bindable_dec z : Decision (bindable z).
Proof. unfold bindable. apply _. Defined.

Definition set_daily_target (target : Z) (target_date : string) (st : Store) : Store :=
  {| daily_targets := <[target_date := target]> (daily_targets st);
     calls := calls st; calls_seq := calls_seq st;
     contacts := contacts st; contacts_seq := contacts_seq st |}.

(** [now] is the value of CURRENT_TIMESTAMP when the row is inserted. *)
Definition add_call (name response call_date now : string) (st : Store)
    : Exn + (Z * Store) :=
  match check_response response with
  | None => inl (IntegrityError check_failed)
  | Some r =>
      let call_id := (calls_seq st + 1)%Z in
      inr (call_id,
           {| daily_targets := daily_targets st;
              calls := calls st ++
                [ {| calls_id := call_id; calls_name := name; calls_response := r;
                     calls_date := call_date; calls_created_at := now |} ];
              calls_seq := call_id;
              contacts := contacts st; contacts_seq := contacts_seq st |})
  end.

(** The dict [stats] with the given values under its eight keys. *)
Definition stats_dict (a b c na dnp catchup total successful : Z) : gmap string Z :=
  <["A" := a]> (<["B" := b]> (<["C" := c]> (<["NA" := na]>
  (<["DNP" := dnp]> (<["CATCHUP" := catchup]> (<["total" := total]>
  (<["successful" := successful]> ∅))))))).

(** The dict literal [stats] starts from. *)
Definition stats_init : gmap string Z := stats_dict 0 0 0 0 0 0 0 0.

(** One turn of the loop over the grouped rows.  [stats["total"] += count]
    is [alter]: the key is in the dict from the start. *)
Definition stats_step (stats : gmap string Z) (row : string * Z) : gmap string Z :=
  let '(response, count) := row in
  let stats :=
    if decide (is_Some (stats !! response)) then <[response := count]> stats
    else stats in
  let stats := alter (fun v => (v + count)%Z) "total" stats in
  if decide (response ∈ ["A"; "B"; "C"])
  then alter (fun v => (v + count)%Z) "successful" stats
  else stats.

Definition get_today_stats (call_date : string) (st : Store) : gmap string Z :=
  let rows :=
    (fun g : Response * list Call => (response_str g.1, COUNT g.2)) <$>
      group_by calls_response (filter (fun k => calls_date k = call_date) (calls st)) in
  foldl stats_step stats_init rows.

Definition contact_exists_anywhere (name : string) (st : Store) : bool :=
  bool_decide (Exists (fun c => LOWER (contacts_name c) = LOWER name) (contacts st)).

Definition contact_exists_for_date (name target_date : string) (st : Store) : bool :=
  bool_decide
    (Exists (fun c => contacts_name c = name /\ contacts_date c = target_date)
            (contacts st)).

(** The [INSERT] also runs the table's [UNIQUE(name, date)] constraint. *)
Definition add_contact (name contact_date : string) (skip_global_check : bool)
    (now : string) (st : Store) : Exn + (Z * Store) :=
  if contact_exists_for_date name contact_date st then
    inl (ValueError ("Contact '" +:+ name +:+ "' already in today's list"))
  else if negb skip_global_check && contact_exists_anywhere name st then
    inl (ValueError ("Contact '" +:+ name +:+ "' already exists"))
  else if bool_decide
            (Exists (fun c => contacts_name c = name /\ contacts_date c = contact_date)
                    (contacts st)) then
    inl (IntegrityError "UNIQUE constraint failed: contacts.name, contacts.date")
  else
    let contact_id := (contacts_seq st + 1)%Z in
    inr (contact_id,
         {| daily_targets := daily_targets st;
            calls := calls st; calls_seq := calls_seq st;
            contacts := contacts st ++
              [ {| contacts_id := contact_id; contacts_name := name;
                   contacts_date := contact_date; contacts_created_at := now |} ];
            contacts_seq := contact_id |}).

(** [calls.name = n] has a row / has a row dated [d]. *)
Definition called (cs : list Call) (n : string) : Prop :=
  Exists (fun k => calls_name k = n) cs.

Definition called_on (cs : list Call) (n d : string) : Prop :=
  Exists (fun k => calls_name k = n /\ calls_date k = d) cs.

(** [ORDER BY date DESC, created_at DESC] *)
Definition latest_first (k1 k2 : Call) : Prop :=
  Text.lt (calls_date k2) (calls_date k1)
  \/ (calls_date k1 = calls_date k2
      /\ Text.le (calls_created_at k2) (calls_created_at k1)).

#[global] Instance latest_first_dec k1 k2 : Decision (latest_first k1 k2).
Proof. unfold latest_first. apply _. Defined.

(** [SELECT ... FROM calls WHERE calls.name = n
     ORDER BY date DESC, created_at DESC LIMIT 1] *)
Definition latest_call (cs : list Call) (n : string) : option Call :=
  head (order_by latest_first (filter (fun k => calls_name k = n) cs)).

(** The [WHERE] clause of [get_contacts_for_date]. *)
Definition shown (cs : list Call) (target_date : string) (c : Contact) : Prop :=
  contacts_date c = target_date
  \/ (Text.lt (contacts_date c) target_date /\ ~ called cs (contacts_name c))
  \/ (Text.lt (contacts_date c) target_date
      /\ calls_response <$> latest_call cs (contacts_name c) = Some R_DNP)
  \/ (Text.lt (contacts_date c) target_date
      /\ called_on cs (contacts_name c) target_date).

#[global] Instance shown_dec cs d c : Decision (shown cs d c).
Proof. unfold shown, called, called_on. apply _. Defined.

(** The index that [UNIQUE(name, date)] creates on [contacts].  SQLite
    reads the table through it wherever the rows are wanted by name
    ([GROUP BY c.name], [ORDER BY name]), with no sort of its own: the rows
    come by name, then by date, and rows equal in both (there are none while
    the constraint holds) by rowid. *)
Definition index_order (c1 c2 : Contact) : Prop :=
  Text.lt (contacts_name c1) (contacts_name c2)
  \/ (contacts_name c1 = contacts_name c2
      /\ Text.le (contacts_date c1) (contacts_date c2)).

#[global] Instance index_order_dec c1 c2 : Decision (index_order c1 c2).
Proof. unfold index_order. apply _. Defined.

Definition contacts_index (st : Store) : list Contact :=
  order_by index_order (contacts st).

(** A row of [get_contacts_for_date]; [cr_has_call_today] is the 1/0 of the
    [CASE] expression. *)
Record ContactRow := {
  cr_id : Z;
  cr_name : string;
  cr_added_date : string;
  cr_has_call_today : bool
}.

(** The aggregates of one group: [MAX(c.id)] (both branches of the inner
    [CASE] are [c.id]), [MAX(c.date)], and the sort key [MIN(c.created_at)]. *)
Definition contact_group_row (cs : list Call) (target_date : string)
    (g : string * list Contact) : option (ContactRow * string) :=
  match g.2 with
  | [] => None
  | c :: rest =>
      Some ({| cr_id := foldl Z.max (contacts_id c) (contacts_id <$> rest);
               cr_name := g.1;
               cr_added_date :=
                 foldl Text.max (contacts_date c) (contacts_date <$> rest);
               cr_has_call_today := bool_decide (called_on cs g.1 target_date) |},
            foldl Text.min (contacts_created_at c) (contacts_created_at <$> rest))
  end.

(** [ORDER BY has_call_today DESC, MIN(c.created_at) ASC] *)
Definition contact_row_order (r1 r2 : ContactRow * string) : Prop :=
  (cr_has_call_today r1.1 = true /\ cr_has_call_today r2.1 = false)
  \/ (cr_has_call_today r1.1 = cr_has_call_today r2.1 /\ Text.le r1.2 r2.2).

#[global] Instance contact_row_order_dec r1 r2 : Decision (contact_row_order r1 r2).
Proof. unfold contact_row_order. apply _. Defined.

Definition get_contacts_for_date (target_date : string) (st : Store)
    : list ContactRow :=
  let matching := filter (shown (calls st) target_date) (contacts_index st) in
  let rows :=
    omap (contact_group_row (calls st) target_date)
         (group_by contacts_name matching) in
  fst <$> order_by contact_row_order rows.

Definition delete_contact (contact_id : Z) (st : Store) : bool * Store :=
  let deleted := bool_decide (Exists (fun c => contacts_id c = contact_id) (contacts st)) in
  (deleted,
   {| daily_targets := daily_targets st;
      calls := calls st; calls_seq := calls_seq st;
      contacts := filter (fun c => contacts_id c <> contact_id) (contacts st);
      contacts_seq := contacts_seq st |}).

Definition month_start (year month : Z) : string :=
  fmt_0d 4 year +:+ "-" +:+ fmt_0d 2 month +:+ "-01".

Definition month_end (year month : Z) : string :=
  if decide (month = 12%Z) then fmt_0d 4 (year + 1) +:+ "-01-01"
  else fmt_0d 4 year +:+ "-" +:+ fmt_0d 2 (month + 1) +:+ "-01".

(** [date >= start_date AND date < end_date] *)
Definition in_range (start_date end_date d : string) : Prop :=
  Text.le start_date d /\ Text.lt d end_date.

#[global] Instance in_range_dec s e d : Decision (in_range s e d).
Proof. unfold in_range. apply _. Defined.

Definition get_month_achievements (year month : Z) (st : Store) : gmap string bool :=
  let start_date := month_start year month in
  let end_date := month_end year month in
  let targets : gmap string Z :=
    filter (fun row : string * Z => in_range start_date end_date row.1)
           (daily_targets st) in
  let successful_counts : gmap string Z :=
    list_to_map
      ((fun g : string * list Call => (g.1, COUNT g.2)) <$>
         group_by calls_date
           (filter (fun k => in_range start_date end_date (calls_date k)
                             /\ calls_response k ∈ [R_A; R_B; R_C])
                   (calls st))) in
  map_imap
    (fun date_str target =>
       let successful := default 0%Z (successful_counts !! date_str) in
       Some (bool_decide (target ≤ successful)%Z))
    targets.

Definition delete_call (call_id : Z) (st : Store) : bool * Store :=
  let deleted := bool_decide (Exists (fun k => calls_id k = call_id) (calls st)) in
  (deleted,
   {| daily_targets := daily_targets st;
      calls := filter (fun k => calls_id k <> call_id) (calls st);
      calls_seq := calls_seq st;
      contacts := contacts st; contacts_seq := contacts_seq st |}).

(** [UPDATE calls SET response = ? WHERE id = ?]; the [CHECK] constraint is
    evaluated on the rows the statement changes. *)
Definition update_call (call_id : Z) (response : string) (st : Store)
    : Exn + (bool * Store) :=
  if bool_decide (Exists (fun k => calls_id k = call_id) (calls st)) then
    match check_response response with
    | None => inl (IntegrityError check_failed)
    | Some r =>
        inr (true,
             {| daily_targets := daily_targets st;
                calls :=
                  (fun k => if decide (calls_id k = call_id)
                            then {| calls_id := calls_id k; calls_name := calls_name k;
                                    calls_response := r; calls_date := calls_date k;
                                    calls_created_at := calls_created_at k |}
                            else k) <$> calls st;
                calls_seq := calls_seq st;
                contacts := contacts st; contacts_seq := contacts_seq st |})
    end
  else inr (false, st).

(** A row of the query of [get_all_contacts_summary]. *)
Record SummaryRow := {
  sr_id : Z;
  sr_name : string;
  sr_added_date : string;
  sr_latest_response : option Response;
  sr_last_called_date : option string;
  sr_dnp_count : Z
}.

(** The dict built from a row, with the added key [display_response]. *)
Record SummaryItem := {
  item_row : SummaryRow;
  display_response : string
}.

(** The sub-select [dnp_counts], under [COALESCE(..., 0)]. *)
Definition dnp_count (cs : list Call) (n : string) : Z :=
  COUNT (filter (fun k => calls_name k = n /\ calls_response k = R_DNP) cs).

(** [ROW_NUMBER()] over the rows of one partition, in their order. *)
Fixpoint row_number_from {A} (i : Z) (l : list A) : list (A * Z) :=
  match l with
  | [] => []
  | x :: l => (x, i) :: row_number_from (i + 1) l
  end.

(** The sub-select [latest]: every call with its
    [ROW_NUMBER() OVER (PARTITION BY name ORDER BY date DESC, created_at DESC)]. *)
Definition latest (cs : list Call) : list (Call * Z) :=
  g ← group_by calls_name cs;
  row_number_from 1 (order_by latest_first g.2).

(** [LEFT JOIN latest ON c.name = latest.name AND latest.rn = 1]: the row
    of [latest] that joins a contact named [n], if there is one. *)
Definition latest_row (cs : list Call) (n : string) : option Call :=
  fst <$> head (filter (fun row : Call * Z => calls_name row.1 = n /\ row.2 = 1%Z)
                       (latest cs)).

(** One group of the join.  Every row of a group joins the same [latest]
    and [dnp_counts] rows; [c.id] and [c.date] are bare columns, which
    SQLite takes from the first row of the group that the scan reaches: by
    the index, the row of the name with the earliest date. *)
Definition summary_group_row (cs : list Call) (g : string * list Contact)
    : option SummaryRow :=
  match g.2 with
  | [] => None
  | c :: _ =>
      let latest := latest_row cs g.1 in
      Some {| sr_id := contacts_id c;
              sr_name := g.1;
              sr_added_date := contacts_date c;
              sr_latest_response := calls_response <$> latest;
              sr_last_called_date := calls_date <$> latest;
              sr_dnp_count := dnp_count cs g.1 |}
  end.

(** SQLite orders NULL before every text value. *)
Definition null_lt (a b : option string) : Prop :=
  match a, b with
  | None, Some _ => True
  | Some x, Some y => Text.lt x y
  | _, None => False
  end.

#[global] Instance null_lt_dec a b : Decision (null_lt a b).
Proof. destruct a, b; simpl; apply _. Defined.

(** [CASE WHEN latest.response IS NULL THEN 1 ELSE 0 END] *)
Definition null_flag (r : SummaryRow) : Z :=
  match sr_latest_response r with None => 1 | Some _ => 0 end.

(** [ORDER BY <null flag>, latest.date DESC, c.name ASC] *)
Definition summary_order (r1 r2 : SummaryRow) : Prop :=
  (null_flag r1 < null_flag r2)%Z
  \/ (null_flag r1 = null_flag r2
      /\ (null_lt (sr_last_called_date r2) (sr_last_called_date r1)
          \/ (sr_last_called_date r1 = sr_last_called_date r2
              /\ Text.le (sr_name r1) (sr_name r2)))).

#[global] Instance summary_order_dec r1 r2 : Decision (summary_order r1 r2).
Proof. unfold summary_order. apply _. Defined.

Definition summary_item (row : SummaryRow) : SummaryItem :=
  {| item_row := row;
     display_response :=
       match sr_latest_response row with
       | None => "UN"
       | Some r => response_str r
       end |}.

Definition get_all_contacts_summary (filters : option (list string)) (st : Store)
    : list SummaryItem :=
  let rows :=
    order_by summary_order
      (omap (summary_group_row (calls st))
            (group_by contacts_name (contacts_index st))) in
  let results := summary_item <$> rows in
  match filters with
  | Some (f :: fs) =>
      filter (fun r => display_response r ∈ f :: fs) results
  | _ => results
  end.

(** A row of [get_today_calls]. *)
Record CallRow := {
  cl_id : Z;
  cl_name : string;
  cl_response : Response;
  cl_created_at : string
}.

Definition call_row (k : Call) : CallRow :=
  {| cl_id := calls_id k; cl_name := calls_name k;
     cl_response := calls_response k; cl_created_at := calls_created_at k |}.

(** [ORDER BY created_at DESC] *)
Definition newest_first (k1 k2 : Call) : Prop :=
  Text.le (calls_created_at k2) (calls_created_at k1).

#[global] Instance newest_first_dec k1 k2 : Decision (newest_first k1 k2).
Proof. unfold newest_first. apply _. Defined.

Definition get_today_calls (call_date : string) (st : Store) : list CallRow :=
  call_row <$>
    order_by newest_first (filter (fun k => calls_date k = call_date) (calls st)).

(** A row of [get_all_contacts]. *)
Record ContactName := {
  cn_id : Z;
  cn_name : string
}.

Definition contact_name_row (c : Contact) : ContactName :=
  {| cn_id := contacts_id c; cn_name := contacts_name c |}.

(** [ORDER BY name ASC] *)
Definition by_name (c1 c2 : Contact) : Prop :=
  Text.le (contacts_name c1) (contacts_name c2).

#[global] Instance by_name_dec c1 c2 : Decision (by_name c1 c2).
Proof. unfold by_name. apply _. Defined.

Definition get_all_contacts (st : Store) : list ContactName :=
  contact_name_row <$> order_by by_name (contacts_index st).

(** [today] is the value of [get_today()]. *)
Definition get_contacts_added_today (today : string) (st : Store) : gset string :=
  list_to_set
    (contacts_name <$> filter (fun c => contacts_date c = today) (contacts st)).

Definition get_contact_call_history (contact_name : string) (st : Store)
    : list Call :=
  order_by latest_first (filter (fun k => calls_name k = contact_name) (calls st)).

End database.

(** ** app.py *)

(** [str.strip] and [str.upper] of the Python runtime.  The handlers are
    written against this interface, and what is proved of them holds for
    every implementation of it. *)
Class PyStr := {
  strip : string -> string;
  upper : string -> string
}.

(** The ASCII part of the two functions: white space is stripped at both
    ends, the letters a-z are folded. *)
Definition is_space (a : ascii) : bool :=
  let n := N_of_ascii a in
  ((n =? 32) || ((9 <=? n) && (n <=? 13)) || ((28 <=? n) && (n <=? 31)))%N.

Definition upper_ascii (a : ascii) : ascii :=
  let n := N_of_ascii a in
  if ((97 <=? n) && (n <=? 122))%N then ascii_of_N (n - 32) else a.

Fixpoint drop_spaces (l : list ascii) : list ascii :=
  match l with
  | a :: l' => if is_space a then drop_spaces l' else l
  | [] => []
  end.

Definition ascii_strip (s : string) : string :=
  string_of_list_ascii
    (reverse (drop_spaces (reverse (drop_spaces (list_ascii_of_string s))))).

Definition ascii_upper (s : string) : string :=
  string_of_list_ascii (upper_ascii <$> list_ascii_of_string s).

#[global] Instance ascii_PyStr : PyStr :=
  {| strip := ascii_strip; upper := ascii_upper |}.

(** [s.split(sep)] for a one-character separator: the pieces between the
    separators, empty pieces included. *)
Fixpoint split (sep : ascii) (s : string) : list string :=
  match s with
  | EmptyString => [EmptyString]
  | String a s' =>
      if decide (a = sep) then EmptyString :: split sep s'
      else match split sep s' with
           | w :: ws => String a w :: ws
           | [] => [String a EmptyString]
           end
  end.

(** [int(s)] of the Python runtime, [None] when it raises [ValueError];
    left abstract like [strip] and [upper]. *)
Class PyInt := {
  py_int : string -> option Z
}.

(** Its decimal part: a non-empty string of digits, with an optional sign. *)
Definition decimal_int (s : string) : option Z :=
  if decide (s = "") then None else Z.of_int <$> NilZero.int_of_string s.

#[global] Instance decimal_PyInt : PyInt := {| py_int := decimal_int |}.

Module app.

Import database.

Record Message := {
  msg_text : string;
  msg_type : string;
  msg_emoji : string
}.

Definition msg_rampage : Message :=
  {| msg_text := "You're on Rampage, let's get it done!";
     msg_type := "rampage";
     msg_emoji := "⚡🔥" |}.

Definition msg_achieved : Message :=
  {| msg_text := "Target achieved! Keep the momentum going!";
     msg_type := "success";
     msg_emoji := "🎉🏆" |}.

Definition msg_progress (remaining : Z) : Message :=
  {| msg_text := "Great, " +:+ str remaining +:+ " to go!";
     msg_type := "success";
     msg_emoji := "🎉" |}.

Definition msg_followup : Message :=
  {| msg_text := "Call this guy next time, let's go for next!";
     msg_type := "followup";
     msg_emoji := "🔥" |}.

Definition msg_retry : Message :=
  {| msg_text := "Someone's waiting for your call. Let's reach till there!";
     msg_type := "retry";
     msg_emoji := "🔥🔥" |}.

Definition successful_responses : list string := ["A"; "B"; "C"].

Definition get_encouraging_message
    (response : string) (successful_count target : Z) : Message :=
  let remaining := (target - successful_count)%Z in
  if bool_decide (response ∈ successful_responses) && bool_decide (remaining = 1%Z)
  then msg_rampage
  else if bool_decide (response ∈ successful_responses) then
    if bool_decide (remaining ≤ 0)%Z then msg_achieved
    else msg_progress remaining
  else if bool_decide (response = "NA") then msg_followup
  else msg_retry.

(** JSON values, as [jsonify] sends them. *)
Inductive Json :=
| JNull
| JBool (b : bool)
| JInt (z : Z)
| JStr (s : string)
| JList (l : list Json)
| JObj (fields : list (string * Json)).

(** What a handler returns: a JSON body with a status, or, when an
    exception escapes the handler, Flask's own 500 page. *)
Inductive HttpResponse :=
| Reply (body : Json) (status : Z)
| ServerError.

(** What a request reads from outside the store: [database.get_today()]
    and CURRENT_TIMESTAMP at the n-th insert of the request. *)
Record Env := {
  today : string;
  now : nat -> string
}.

Definition json_message (m : Message) : Json :=
  JObj [("text", JStr (msg_text m)); ("type", JStr (msg_type m));
        ("emoji", JStr (msg_emoji m))].

Definition json_stats (stats : gmap string Z) : Json :=
  JObj ((fun kv : string * Z => (kv.1, JInt kv.2)) <$> map_to_list stats).

Definition error (msg : string) : Json := JObj [("error", JStr msg)].

Definition valid_responses : list string := ["A"; "B"; "C"; "NA"; "DNP"].

(** The JSON bodies of the mutating endpoints, field by field, for the
    bodies whose fields have the types the handlers expect: text for a
    name, a response or a date, an integer for an id, a list of texts for
    the names of a batch.  A field is [None] when the key is absent from
    the body; [target] is the value after [int(...)]. *)
Inductive Request :=
| SetTarget (target : option Z) (date : option string)
| AddCall (name response date : option string)
| DeleteCall (call_id : option Z) (date : option string)
| UpdateCall (call_id : option Z) (response date : option string)
| AddContact (name date : option string)
| DeleteContact (contact_id : option Z)
| AddToToday (name : option string)
| AddMultipleToToday (names : option (list string)).

(** [x or 0] on the result of [get_daily_target] *)
Definition target_or_0 (selected_date : string) (st : Store) : Z :=
  match get_daily_target selected_date st with
  | Some t => if decide (t = 0%Z) then 0%Z else t
  | None => 0%Z
  end.

(** A call of a database function that binds the integer [i]: when [i]
    does not fit in 64 bits the call raises OverflowError, which no
    handler catches, and nothing is written. *)
Definition bound (i : Z) (st : Store) (run : HttpResponse * Store)
    : HttpResponse * Store :=
  if decide (bindable i) then run else (ServerError, st).

Section handlers.
Context `{PyStr}.
Variable env : Env.

Definition set_target (target : option Z) (date : option string) (st : Store)
    : HttpResponse * Store :=
  let target := default 0%Z target in
  let selected_date := default (today env) date in
  if decide (target < 1)%Z then
    (Reply (error "Target must be at least 1") 400, st)
  else
    bound target st
      (Reply (JObj [("success", JBool true); ("target", JInt target)]) 200,
       set_daily_target target selected_date st).

Definition add_call (name response date : option string) (st : Store)
    : HttpResponse * Store :=
  let name := strip (default "" name) in
  let response := upper (default "" response) in
  let selected_date := default (today env) date in
  if decide (name = "") then (Reply (error "Name is required") 400, st)
  else if decide (response ∉ valid_responses) then
    (Reply (error "Invalid response type") 400, st)
  else
    match database.add_call name response selected_date (now env 0) st with
    | inl _ => (ServerError, st)
    | inr (call_id, st) =>
        let stats := get_today_stats selected_date st in
        let target := target_or_0 selected_date st in
        let message :=
          get_encouraging_message response (stats !!! "successful") target in
        (Reply (JObj [("success", JBool true); ("call_id", JInt call_id);
                      ("name", JStr name); ("stats", json_stats stats);
                      ("message", json_message message)]) 200,
         st)
    end.

Definition delete_call (call_id : option Z) (date : option string) (st : Store)
    : HttpResponse * Store :=
  let selected_date := default (today env) date in
  match call_id with
  | None => (Reply (error "Call ID is required") 400, st)
  | Some call_id =>
      if decide (call_id = 0%Z) then (Reply (error "Call ID is required") 400, st)
      else
        bound call_id st
          (let '(deleted, st) := database.delete_call call_id st in
           if deleted then
             let stats := get_today_stats selected_date st in
             let target := target_or_0 selected_date st in
             (Reply (JObj [("success", JBool true); ("stats", json_stats stats);
                           ("target", JInt target)]) 200, st)
           else (Reply (error "Call not found") 404, st))
  end.

Definition update_call (call_id : option Z) (response date : option string)
    (st : Store) : HttpResponse * Store :=
  let response := upper (default "" response) in
  let selected_date := default (today env) date in
  match call_id with
  | None => (Reply (error "Call ID is required") 400, st)
  | Some call_id =>
      if decide (call_id = 0%Z) then (Reply (error "Call ID is required") 400, st)
      else if decide (response ∉ valid_responses) then
        (Reply (error "Invalid response type") 400, st)
      else
        bound call_id st
          match database.update_call call_id response st with
          | inl _ => (ServerError, st)
          | inr (true, st) =>
              let stats := get_today_stats selected_date st in
              let target := target_or_0 selected_date st in
              let message :=
                get_encouraging_message response (stats !!! "successful") target in
              (Reply (JObj [("success", JBool true); ("stats", json_stats stats);
                            ("message", json_message message)]) 200, st)
          | inr (false, st) => (Reply (error "Call not found") 404, st)
          end
  end.

Definition add_contact (name date : option string) (st : Store)
    : HttpResponse * Store :=
  let name := strip (default "" name) in
  let selected_date := default (today env) date in
  if decide (name = "") then (Reply (error "Name is required") 400, st)
  else
    match database.add_contact name selected_date false (now env 0) st with
    | inr (contact_id, st) =>
        (Reply (JObj [("success", JBool true);
                      ("contact", JObj [("id", JInt contact_id);
                                        ("name", JStr name)])]) 200, st)
    | inl (ValueError msg) => (Reply (error msg) 400, st)
    | inl e => (Reply (error ("Failed to add contact: " +:+ exn_str e)) 400, st)
    end.

Definition delete_contact (contact_id : option Z) (st : Store)
    : HttpResponse * Store :=
  match contact_id with
  | None => (Reply (error "Contact ID is required") 400, st)
  | Some contact_id =>
      if decide (contact_id = 0%Z) then
        (Reply (error "Contact ID is required") 400, st)
      else
        bound contact_id st
          (let '(deleted, st) := database.delete_contact contact_id st in
           if deleted then (Reply (JObj [("success", JBool true)]) 200, st)
           else (Reply (error "Contact not found") 404, st))
  end.

Definition add_to_today (name : option string) (st : Store)
    : HttpResponse * Store :=
  let name := strip (default "" name) in
  if decide (name = "") then (Reply (error "Name is required") 400, st)
  else
    match database.add_contact name (today env) true (now env 0) st with
    | inr (contact_id, st) =>
        (Reply (JObj [("success", JBool true); ("already_exists", JBool false);
                      ("contact", JObj [("id", JInt contact_id);
                                        ("name", JStr name)])]) 200, st)
    | inl (ValueError _) =>
        (Reply (JObj [("success", JBool true); ("already_exists", JBool true);
                      ("contact", JObj [("name", JStr name)])]) 200, st)
    | inl e => (Reply (error (exn_str e)) 400, st)
    end.

(** The state of the loop of [add_multiple_to_today]: the store, the two
    lists, and the number of inserts run so far. *)
Record Batch := {
  batch_store : Store;
  added : list string;
  skipped : list string;
  inserts : nat
}.

Definition batch_step (b : Batch) (name : string) : Batch :=
  let name := strip name in
  if decide (name = "") then b
  else
    match database.add_contact name (today env) true (now env (inserts b))
                               (batch_store b) with
    | inr (_, st) =>
        {| batch_store := st; added := added b ++ [name];
           skipped := skipped b; inserts := S (inserts b) |}
    | inl _ =>
        {| batch_store := batch_store b; added := added b;
           skipped := skipped b ++ [name]; inserts := inserts b |}
    end.

Definition add_multiple_to_today (names : option (list string)) (st : Store)
    : HttpResponse * Store :=
  match names with
  | None | Some [] => (Reply (error "Names are required") 400, st)
  | Some names =>
      let b :=
        foldl batch_step
              {| batch_store := st; added := []; skipped := []; inserts := 0 |}
              names in
      (Reply (JObj [("success", JBool true);
                    ("added", JList (JStr <$> added b));
                    ("skipped", JList (JStr <$> skipped b));
                    ("added_count", JInt (Z.of_nat (length (added b))));
                    ("skipped_count", JInt (Z.of_nat (length (skipped b))))])
             200,
       batch_store b)
  end.

(** The mutating endpoints, dispatched on the route. *)
Definition handle (req : Request) (st : Store) : HttpResponse * Store :=
  match req with
  | SetTarget target date => set_target target date st
  | AddCall name response date => add_call name response date st
  | DeleteCall call_id date => delete_call call_id date st
  | UpdateCall call_id response date => update_call call_id response date st
  | AddContact name date => add_contact name date st
  | DeleteContact contact_id => delete_contact contact_id st
  | AddToToday name => add_to_today name st
  | AddMultipleToToday names => add_multiple_to_today names st
  end.

(** [GET /stats] *)
Definition get_stats (date : option string) (st : Store) : HttpResponse :=
  let selected_date := default (today env) date in
  let stats := get_today_stats selected_date st in
  let target := get_daily_target selected_date st in
  Reply (JObj [("stats", json_stats stats);
               ("target", match target with Some t => JInt t | None => JNull end)])
        200.

(** The filter list of [summary]: the non-blank pieces of the query
    parameter, stripped and upper-cased, with N/A standing for NA. *)
Definition parse_filters (filter_param : string) : list string :=
  let filters :=
    (fun f => upper (strip f)) <$>
      filter (fun f => strip f <> "") (split "," filter_param) in
  (fun f => if decide (f = "N/A") then "NA" else f) <$> filters.

(** What [summary] hands to its template. *)
Record SummaryPage := {
  page_contacts : list SummaryItem;
  page_active_filters : list string;
  page_today : string;
  page_added_to_today : gset string
}.

Definition summary (filter_param : option string) (st : Store) : SummaryPage :=
  let filters := parse_filters (default "" filter_param) in
  {| page_contacts :=
       get_all_contacts_summary
         (match filters with [] => None | _ => Some filters end) st;
     page_active_filters := filters;
     page_today := today env;
     page_added_to_today := get_contacts_added_today (today env) st |}.



Context `{PyInt}.


End handlers.

(** One request served: the store before and after. *)
Inductive step `{PyStr} : Store -> Store -> Prop :=
| step_handle env req st : step st (handle env req st).2.

End app.

Import database.

(** ** Vocabulary of the properties *)

(** The number of [calls] rows dated [d] with response [r]. *)
Definition calls_with (st : Store) (d : string) (r : Response) : Z :=
  COUNT (filter (fun k => calls_date k = d /\ calls_response k = r) (calls st)).




(** A structured JSON error: the body [{"error": msg}] with a 4xx status. *)
Definition error_reply (r : app.HttpResponse) : Prop :=
  exists msg status,
    r = app.Reply (app.error msg) status /\ (400 <= status < 500)%Z.

(** The reply of [add_to_today] for a contact already in today's list. *)
Definition already_exists_reply (name : string) : app.HttpResponse :=
  app.Reply
    (app.JObj [("success", app.JBool true); ("already_exists", app.JBool true);
               ("contact", app.JObj [("name", app.JStr name)])])
    200.

(** The batch loop of [add_multiple_to_today] at its start. *)
Definition batch_init (st : Store) : app.Batch :=
  {| app.batch_store := st; app.added := []; app.skipped := [];
     app.inserts := 0 |}.




(** A store with Bob in the list of 2024-03-05, and a request that adds
    him to that day again. *)
Definition env_0305 : app.Env :=
  {| app.today := "2024-03-05"; app.now := fun _ => "2024-03-05 09:30:00" |}.

Definition store_with_bob : Store :=
  (app.handle env_0305 (app.AddContact (Some "Bob") None) empty_store).2.


(** The number of successful calls (response A, B or C) dated [d]. *)
Definition successful_on (st : Store) (d : string) : Z :=
  COUNT (filter (fun k => calls_date k = d /\ calls_response k ∈ [R_A; R_B; R_C])
                (calls st)).

(** [(date, created_at)] pairs in their lexicographic order. *)
Definition not_later (k1 k2 : Call) : Prop :=
  Text.lt (calls_date k1) (calls_date k2)
  \/ (calls_date k1 = calls_date k2
      /\ Text.le (calls_created_at k1) (calls_created_at k2)).

(** The rows of [contacts] with name [n] that pass the [WHERE] clause for
    [target_date]. *)
Definition matching (st : Store) (target_date n : string) : list Contact :=
  filter (fun c => contacts_name c = n /\ shown (calls st) target_date c)
         (contacts st).

(** The earliest [created_at] among them. *)
Definition first_registered (st : Store) (target_date n : string) : string :=
  match matching st target_date n with
  | [] => ""
  | c :: rest => foldl Text.min (contacts_created_at c) (contacts_created_at <$> rest)
  end.

(** The rows of the query before [ORDER BY]. *)
Definition contact_rows (target_date : string) (st : Store)
    : list (ContactRow * string) :=
  omap (contact_group_row (calls st) target_date)
       (group_by contacts_name
          (filter (shown (calls st) target_date) (contacts_index st))).

(** [ORDER BY has_call_today DESC, MIN(c.created_at) ASC], on the rows
    returned. *)
Definition called_first (st : Store) (target_date : string) (r1 r2 : ContactRow)
    : Prop :=
  (cr_has_call_today r1 = true /\ cr_has_call_today r2 = false)
  \/ (cr_has_call_today r1 = cr_has_call_today r2
      /\ Text.le (first_registered st target_date (cr_name r1))
                 (first_registered st target_date (cr_name r2))).

(** Bob and Al registered on 2024-03-05, Al called that day. *)
Definition store_bob_al : Store :=
  let st1 := (app.handle env_0305 (app.AddContact (Some "Al") None)
                store_with_bob).2 in
  (app.handle env_0305 (app.AddCall (Some "Al") (Some "dnp") None) st1).2.

(** The rows of the summary query before [ORDER BY]. *)
Definition summary_rows (st : Store) : list SummaryRow :=
  omap (summary_group_row (calls st)) (group_by contacts_name (contacts_index st)).

(** The order of the summary as a listing: attempted contacts before the
    others; attempted ones by last-called date, latest first, then by name;
    the others by name. *)
Definition listing_order (r1 r2 : SummaryRow) : Prop :=
  match sr_last_called_date r1, sr_last_called_date r2 with
  | Some _, None => True
  | Some d1, Some d2 =>
      Text.lt d2 d1 \/ (d1 = d2 /\ Text.le (sr_name r1) (sr_name r2))
  | None, None => Text.le (sr_name r1) (sr_name r2)
  | None, Some _ => False
  end.

(** One statement that changes the database, as the handlers issue them:
    a target of at least 1, a call with one of the five current responses,
    a contact, a deletion, or a change of response. *)
Inductive db_step : Store -> Store -> Prop :=
| db_set_target target d st :
    (1 <= target)%Z -> db_step st (set_daily_target target d st)
| db_add_call name response d now st i st' :
    response ∈ app.valid_responses ->
    database.add_call name response d now st = inr (i, st') ->
    db_step st st'
| db_delete_call i st :
    db_step st (database.delete_call i st).2
| db_update_call i response st b st' :
    response ∈ app.valid_responses ->
    database.update_call i response st = inr (b, st') ->
    db_step st st'
| db_add_contact name d skip now st i st' :
    database.add_contact name d skip now st = inr (i, st') ->
    db_step st st'
| db_delete_contact i st :
    db_step st (database.delete_contact i st).2.

(** Every target is at least 1. *)
Definition targets_positive (st : Store) : Prop :=
  forall d t, daily_targets st !! d = Some t -> (1 <= t)%Z.

(** The ids of a table are distinct and not above its AUTOINCREMENT
    counter. *)
Definition ids_ok (st : Store) : Prop :=
  NoDup (calls_id <$> calls st)
  /\ Forall (fun k => (calls_id k <= calls_seq st)%Z) (calls st)
  /\ NoDup (contacts_id <$> contacts st)
  /\ Forall (fun c => (contacts_id c <= contacts_seq st)%Z) (contacts st).

(** [UNIQUE(name, date)] *)
Definition contacts_unique (st : Store) : Prop :=
  NoDup ((fun c => (contacts_name c, contacts_date c)) <$> contacts st).


(** The requests that write to [calls]. *)
Definition call_request (req : app.Request) : bool :=
  match req with
  | app.AddCall _ _ _ | app.DeleteCall _ _ | app.UpdateCall _ _ _ => true
  | _ => false
  end.

(** * Properties *)

(** ** Facts about the text order *)

Module TextFacts.
Import Text.

Lemma lt_compare a b : lt a b <-> String.compare a b = Lt.
Proof. unfold lt, String.ltb. destruct (String.compare a b); intuition congruence. Qed.

Lemma le_compare a b : le a b <-> String.compare a b <> Gt.
Proof. unfold le, String.leb. destruct (String.compare a b); intuition congruence. Qed.

Lemma compare_refl a : String.compare a a = Eq.
Proof. by apply String_as_OT.cmp_eq. Qed.

Lemma compare_flip a b : String.compare b a = CompOpp (String.compare a b).
Proof. apply String.compare_antisym. Qed.

Lemma compare_lt_trans a b c :
  String.compare a b = Lt -> String.compare b c = Lt -> String.compare a c = Lt.
Proof.
  intros H1 H2. apply String_as_OT.cmp_lt.
  eapply String_as_OT.lt_trans; apply String_as_OT.cmp_lt; eassumption.
Qed.

Lemma le_refl a : le a a.
Proof. apply le_compare. by rewrite compare_refl. Qed.

Lemma lt_irrefl a : ~ lt a a.
Proof. rewrite lt_compare, compare_refl. discriminate. Qed.

Lemma lt_le a b : lt a b -> le a b.
Proof. rewrite lt_compare, le_compare. congruence. Qed.

Lemma le_lteq a b : le a b <-> lt a b \/ a = b.
Proof.
  rewrite lt_compare, le_compare, <- String_as_OT.cmp_eq.
  unfold String_as_OT.cmp. destruct (String.compare a b); intuition congruence.
Qed.

Lemma lt_trans a b c : lt a b -> lt b c -> lt a c.
Proof. rewrite !lt_compare. apply compare_lt_trans. Qed.

Lemma le_trans a b c : le a b -> le b c -> le a c.
Proof.
  rewrite !le_lteq. intros [H1 | ->] [H2 | ->]; auto.
  left. eapply lt_trans; eassumption.
Qed.

Lemma le_lt_trans a b c : le a b -> lt b c -> lt a c.
Proof. rewrite le_lteq. intros [H1 | ->] H2; [eapply lt_trans|]; eassumption. Qed.

Lemma lt_le_trans a b c : lt a b -> le b c -> lt a c.
Proof. rewrite le_lteq. intros H1 [H2 | <-]; [eapply lt_trans|]; eassumption. Qed.

Lemma le_total a b : le a b \/ le b a.
Proof. apply String.leb_total. Qed.

Lemma le_antisym a b : le a b -> le b a -> a = b.
Proof. apply String.leb_antisym. Qed.

Lemma lt_asym a b : lt a b -> ~ lt b a.
Proof. intros H1 H2. apply (lt_irrefl a). eapply lt_trans; eassumption. Qed.

Lemma not_lt_le a b : ~ lt a b <-> le b a.
Proof.
  rewrite lt_compare, le_compare, (compare_flip a b).
  destruct (String.compare a b); simpl; intuition congruence.
Qed.

Lemma lt_neq a b : lt a b -> a <> b.
Proof. intros H ->. by apply lt_irrefl in H. Qed.


Lemma compare_app_lt p q s t :
  String.length p = String.length q ->
  String.compare p q = Lt -> String.compare (p +:+ s) (q +:+ t) = Lt.
Proof.
  revert q. induction p as [|a p IH]; intros [|b q]; simpl; try done.
  intros [= Hlen]. destruct (Ascii.compare a b); try done. by apply IH.
Qed.

End TextFacts.

(** ** Facts about [GROUP BY] *)

Lemma filter_ext_elem {A} (P Q : A -> Prop)
    `{forall x, Decision (P x)} `{forall x, Decision (Q x)} (l : list A) :
  (forall x, x ∈ l -> P x <-> Q x) -> filter P l = filter Q l.
Proof.
  induction l as [|x l IH]; intros HPQ; [done|].
  rewrite !filter_cons, IH by (intros y Hy; apply HPQ; by right).
  pose proof (HPQ x (list_elem_of_here _ _)) as Hx.
  destruct (decide (P x)), (decide (Q x)); tauto.
Qed.

Section group_by_facts.
Context {A K : Type} `{EqDecision K} (key : A -> K).

Lemma group_by_keys (l : list A) :
  (group_by key l).*1 = remove_dups (key <$> l).
Proof.
  unfold group_by. rewrite <- list_fmap_compose.
  induction (remove_dups (key <$> l)) as [|k ds IH]; simpl; [done|by f_equal].
Qed.

Lemma NoDup_group_by_keys (l : list A) : NoDup (group_by key l).*1.
Proof. rewrite group_by_keys. apply NoDup_remove_dups. Qed.

Lemma elem_of_group_by (l : list A) (k : K) (g : list A) :
  (k, g) ∈ group_by key l <->
  k ∈ key <$> l /\ g = filter (fun x => key x = k) l.
Proof.
  unfold group_by. rewrite list_elem_of_fmap. split.
  - intros (k' & [= -> ->] & Hk). by rewrite elem_of_remove_dups in Hk.
  - intros [Hk ->]. exists k. by rewrite elem_of_remove_dups.
Qed.

Lemma group_by_nonempty (l : list A) (k : K) (g : list A) :
  (k, g) ∈ group_by key l -> exists x g', g = x :: g'.
Proof.
  rewrite elem_of_group_by, list_elem_of_fmap. intros [(x & -> & Hx) ->].
  destruct (filter _ l) as [|y g'] eqn:E; [|eauto].
  assert (x ∈ filter (fun y => key y = key x) l) as Hin
    by by apply list_elem_of_filter.
  rewrite E in Hin. by apply elem_of_nil in Hin.
Qed.

(** The groups selected by [P] hold exactly the rows whose key satisfies
    [P]: the sizes add up. *)
Lemma sum_group_sizes (P : K -> Prop) `{forall k, Decision (P k)}
    (l : list A) (ds : list K) :
  NoDup ds ->
  sum_list_with (fun k => if decide (P k)
                          then length (filter (fun x => key x = k) l) else 0) ds
  = length (filter (fun x => P (key x) /\ key x ∈ ds) l).
Proof.
  induction 1 as [|k ds Hk Hds IH]; simpl.
  - induction l as [|x l IHl]; [done|].
    rewrite filter_cons. case_decide as Hx; [|done].
    destruct Hx as [_ Hx]. by apply elem_of_nil in Hx.
  - rewrite IH. clear IH. induction l as [|x l IHl]; simpl.
    + by destruct (decide (P k)).
    + rewrite !filter_cons.
      repeat destruct (decide _); simplify_eq; simpl in *; try lia; exfalso;
        rewrite ?elem_of_cons in *; naive_solver.
Qed.

Lemma sum_group_by (P : K -> Prop) `{forall k, Decision (P k)} (l : list A) :
  sum_list_with (fun g : K * list A => if decide (P g.1) then length g.2 else 0)
                (group_by key l)
  = length (filter (fun x => P (key x)) l).
Proof.
  unfold group_by.
  trans (sum_list_with
           (fun k => if decide (P k)
                     then length (filter (fun x => key x = k) l) else 0)
           (remove_dups (key <$> l))).
  { induction (remove_dups (key <$> l)) as [|k ds IH]; simpl; [done|by f_equal]. }
  rewrite (sum_group_sizes P l) by apply NoDup_remove_dups.
  f_equal. apply filter_ext_elem. intros x Hx. rewrite elem_of_remove_dups.
  split; [tauto|]. intros HP. split; [done|]. by apply list_elem_of_fmap_2.
Qed.

End group_by_facts.

(** ** Facts about [get_today_stats] *)

Section stats_facts.
Import database.

(** The dict whose per-response entries are given by a function. *)
Let dict_of (f : Response -> Z) (tot suc : Z) : gmap string Z :=
  stats_dict (f R_A) (f R_B) (f R_C) (f R_NA) (f R_DNP) (f R_CATCHUP) tot suc.

Let add_successful (suc : Z) (r : Response) (n : Z) : Z :=
  if decide (r ∈ [R_A; R_B; R_C]) then (suc + n)%Z else suc.

Lemma stats_step_dict (f : Response -> Z) (tot suc : Z) (r : Response) (n : Z) :
  stats_step (dict_of f tot suc) (response_str r, n)
  = dict_of (<[r := n]> f) (tot + n) (add_successful suc r n).
Proof. destruct r; reflexivity. Qed.

Lemma stats_fold_dict (gs : list (Response * list Call)) (f : Response -> Z)
    (tot suc : Z) :
  foldl stats_step (dict_of f tot suc)
        ((fun g : Response * list Call => (response_str g.1, COUNT g.2)) <$> gs)
  = dict_of
      (foldl (fun f (g : Response * list Call) => <[g.1 := COUNT g.2]> f) f gs)
      (tot + Z.of_nat (sum_list_with
                         (fun g : Response * list Call =>
                            if decide (True : Prop) then length g.2 else 0) gs))
      (suc + Z.of_nat (sum_list_with
                         (fun g : Response * list Call =>
                            if decide (g.1 ∈ [R_A; R_B; R_C]) then length g.2 else 0)
                         gs)).
Proof.
  revert f tot suc. induction gs as [|[r g] gs IH]; intros f tot suc.
  - simpl. f_equal; lia.
  - rewrite fmap_cons. cbn [foldl]. rewrite stats_step_dict, IH.
    unfold add_successful, COUNT. cbn [sum_list_with fst snd].
    destruct (decide (r ∈ [R_A; R_B; R_C])); f_equal;
      destruct (decide True); try done; lia.
Qed.

(** After the loop, the entry of a response is the size of its group. *)
Lemma fold_group_counts (l : list Call) (r : Response)
    (gs : list (Response * list Call)) (f : Response -> Z) :
  (forall k g, (k, g) ∈ gs -> g = filter (fun x => calls_response x = k) l) ->
  f r = COUNT (filter (fun x => calls_response x = r) l) \/ r ∈ gs.*1 ->
  foldl (fun f (g : Response * list Call) => <[g.1 := COUNT g.2]> f) f gs r
  = COUNT (filter (fun x => calls_response x = r) l).
Proof.
  revert f. induction gs as [|[k g] gs IH]; intros f Hgs Hr; simpl.
  - destruct Hr as [Hr|Hr]; [done|]. by apply elem_of_nil in Hr.
  - apply IH.
    + intros k' g' Hin. apply Hgs. by right.
    + destruct (decide (k = r)) as [->|Hne].
      * left. rewrite fn_lookup_insert. f_equal. apply Hgs. left.
      * rewrite fn_lookup_insert_ne by done.
        destruct Hr as [Hr|Hr]; [by left|right].
        simpl in Hr. apply elem_of_cons in Hr as [?|?]; [congruence|done].
Qed.

Lemma count_by_response (l : list Call) :
  length l =
  length (filter (fun x => calls_response x = R_A) l)
  + length (filter (fun x => calls_response x = R_B) l)
  + length (filter (fun x => calls_response x = R_C) l)
  + length (filter (fun x => calls_response x = R_NA) l)
  + length (filter (fun x => calls_response x = R_DNP) l)
  + length (filter (fun x => calls_response x = R_CATCHUP) l).
Proof.
  induction l as [|x l IH]; [done|].
  rewrite !filter_cons. simpl.
  destruct (calls_response x); simpl; lia.
Qed.

Lemma count_successful (l : list Call) :
  length (filter (fun x => calls_response x ∈ [R_A; R_B; R_C]) l) =
  length (filter (fun x => calls_response x = R_A) l)
  + length (filter (fun x => calls_response x = R_B) l)
  + length (filter (fun x => calls_response x = R_C) l).
Proof.
  induction l as [|x l IH]; [done|].
  rewrite !filter_cons. simpl.
  destruct (calls_response x); simpl; lia.
Qed.

(** The result of [get_today_stats], entry by entry. *)
Lemma get_today_stats_dict (d : string) (st : Store) :
  let l := filter (fun k => calls_date k = d) (calls st) in
  let n r := COUNT (filter (fun x => calls_response x = r) l) in
  get_today_stats d st
  = stats_dict (n R_A) (n R_B) (n R_C) (n R_NA) (n R_DNP) (n R_CATCHUP)
               (COUNT l)
               (COUNT (filter (fun x => calls_response x ∈ [R_A; R_B; R_C]) l)).
Proof.
  intros l n. unfold get_today_stats. fold l.
  change stats_init with (dict_of (fun _ => 0%Z) 0 0).
  rewrite stats_fold_dict.
  pose proof (sum_group_by calls_response (fun _ => True) l) as Htot.
  pose proof (sum_group_by calls_response (fun r => r ∈ [R_A; R_B; R_C]) l) as Hsuc.
  cbv beta in Htot, Hsuc. rewrite Htot, Hsuc. clear Htot Hsuc.
  assert (forall r,
    foldl (fun f (g : Response * list Call) => <[g.1 := COUNT g.2]> f)
          (fun _ => 0%Z) (group_by calls_response l) r = n r) as Hn.
  { intros r. apply fold_group_counts.
    - intros k g Hin. by apply elem_of_group_by in Hin as [_ ->].
    - rewrite group_by_keys, elem_of_remove_dups.
      destruct (decide (r ∈ calls_response <$> l)) as [Hin|Hout]; [by right|left].
      destruct (filter _ l) as [|x xs] eqn:E; [done|]. exfalso. apply Hout.
      assert (x ∈ filter (fun x => calls_response x = r) l) as Hx
        by (rewrite E; left).
      apply list_elem_of_filter in Hx as [<- Hx]. by apply list_elem_of_fmap_2. }
  unfold dict_of. rewrite !Hn. unfold COUNT.
  assert (filter (fun _ : Call => True) l = l) as ->.
  { clear. induction l as [|x l IH]; [done|]. by rewrite filter_cons_True, IH. }
  by rewrite !Z.add_0_l.
Qed.

End stats_facts.

(** ** The call aggregation engine *)

(** C6: for every date, the stats dict has exactly the keys A, B, C, NA,
    DNP, CATCHUP, total and successful; each response key holds the number
    of calls of that date with that response (0 when there is none), total
    is the sum of the six, and successful is A + B + C. *)
Theorem stats_for_date (d : string) (st : Store) :
  let stats := get_today_stats d st in
  dom stats
    = list_to_set ["A"; "B"; "C"; "NA"; "DNP"; "CATCHUP"; "total"; "successful"]
  /\ stats !! "A" = Some (calls_with st d R_A)
  /\ stats !! "B" = Some (calls_with st d R_B)
  /\ stats !! "C" = Some (calls_with st d R_C)
  /\ stats !! "NA" = Some (calls_with st d R_NA)
  /\ stats !! "DNP" = Some (calls_with st d R_DNP)
  /\ stats !! "CATCHUP" = Some (calls_with st d R_CATCHUP)
  /\ stats !! "total"
     = Some (calls_with st d R_A + calls_with st d R_B + calls_with st d R_C
             + calls_with st d R_NA + calls_with st d R_DNP
             + calls_with st d R_CATCHUP)%Z
  /\ stats !! "successful"
     = Some (calls_with st d R_A + calls_with st d R_B + calls_with st d R_C)%Z.
Proof.
  intros stats. subst stats. rewrite get_today_stats_dict.
  set (l := filter (fun k => calls_date k = d) (calls st)).
  assert (forall r, COUNT (filter (fun x => calls_response x = r) l)
                    = calls_with st d r) as Hn.
  { intros r. unfold calls_with, l. rewrite list_filter_filter.
    do 2 f_equal. apply filter_ext_elem. tauto. }
  rewrite !Hn. split; [|repeat split; try reflexivity].
  - unfold stats_dict. rewrite !dom_insert_L, dom_empty_L. simpl. set_solver.
  - change ((stats_dict (calls_with st d R_A) (calls_with st d R_B)
               (calls_with st d R_C) (calls_with st d R_NA)
               (calls_with st d R_DNP) (calls_with st d R_CATCHUP) (COUNT l)
               (COUNT (filter (fun x => calls_response x ∈ [R_A; R_B; R_C]) l)))
            !! "total") with (Some (COUNT l)).
    f_equal. rewrite <- !Hn. unfold COUNT. rewrite (count_by_response l) at 1. lia.
  - change ((stats_dict (calls_with st d R_A) (calls_with st d R_B)
               (calls_with st d R_C) (calls_with st d R_NA)
               (calls_with st d R_DNP) (calls_with st d R_CATCHUP) (COUNT l)
               (COUNT (filter (fun x => calls_response x ∈ [R_A; R_B; R_C]) l)))
            !! "successful")
      with (Some (COUNT (filter (fun x => calls_response x ∈ [R_A; R_B; R_C]) l))).
    f_equal. rewrite <- !Hn. unfold COUNT. rewrite count_successful. lia.
Qed.

(** ** The messaging policy *)

Lemma contains_middle (pre sub post : string) : contains sub (pre +:+ sub +:+ post).
Proof. by exists pre, post. Qed.

Lemma message_rampage (r : string) (s t : Z) :
  r ∈ ["A"; "B"; "C"] -> (t - s = 1)%Z ->
  app.get_encouraging_message r s t = app.msg_rampage.
Proof.
  intros Hr Hrem. unfold app.get_encouraging_message, app.successful_responses.
  cbv zeta. by rewrite (bool_decide_eq_true_2 _ Hr), (bool_decide_eq_true_2 _ Hrem).
Qed.

Lemma message_achieved (r : string) (s t : Z) :
  r ∈ ["A"; "B"; "C"] -> (t - s <= 0)%Z ->
  app.get_encouraging_message r s t = app.msg_achieved.
Proof.
  intros Hr Hrem. unfold app.get_encouraging_message, app.successful_responses.
  cbv zeta.
  rewrite (bool_decide_eq_true_2 _ Hr), (bool_decide_eq_false_2 (_ = _)) by lia.
  simpl. by rewrite bool_decide_eq_true_2.
Qed.

Lemma message_progress (r : string) (s t : Z) :
  r ∈ ["A"; "B"; "C"] -> (1 < t - s)%Z ->
  app.get_encouraging_message r s t = app.msg_progress (t - s).
Proof.
  intros Hr Hrem. unfold app.get_encouraging_message, app.successful_responses.
  cbv zeta.
  rewrite (bool_decide_eq_true_2 _ Hr), (bool_decide_eq_false_2 (_ = _)) by lia.
  simpl. by rewrite bool_decide_eq_false_2 by lia.
Qed.

(** C8: with remaining = target - successful_count, a response in
    {A, B, C} gives the rampage message when remaining is 1, the
    target-achieved message when remaining is at most 0, and otherwise the
    progress message, whose text shows remaining; NA gives the follow-up
    message and DNP the retry message.  In particular ("A", 4, 5) is the
    rampage message, ("A", 5, 5) the target-achieved one, and ("A", 3, 5) the
    progress one, with "2" in its text. *)
Theorem encouragement_policy :
  (forall r s t, r ∈ ["A"; "B"; "C"] -> (t - s = 1)%Z ->
     app.get_encouraging_message r s t = app.msg_rampage)
  /\ (forall r s t, r ∈ ["A"; "B"; "C"] -> (t - s <= 0)%Z ->
        app.get_encouraging_message r s t = app.msg_achieved)
  /\ (forall r s t, r ∈ ["A"; "B"; "C"] -> (1 < t - s)%Z ->
        app.get_encouraging_message r s t = app.msg_progress (t - s)
        /\ contains (str (t - s))
                    (app.msg_text (app.get_encouraging_message r s t)))
  /\ (forall s t, app.get_encouraging_message "NA" s t = app.msg_followup)
  /\ (forall s t, app.get_encouraging_message "DNP" s t = app.msg_retry)
  /\ app.get_encouraging_message "A" 4 5 = app.msg_rampage
  /\ app.get_encouraging_message "A" 5 5 = app.msg_achieved
  /\ app.get_encouraging_message "A" 3 5 = app.msg_progress 2
  /\ contains "2" (app.msg_text (app.get_encouraging_message "A" 3 5)).
Proof.
  repeat apply conj; try reflexivity.
  - apply message_rampage.
  - apply message_achieved.
  - intros r s t Hr Hrem. rewrite message_progress by done.
    split; [done|]. apply (contains_middle "Great, " _ " to go!").
  - apply (contains_middle "Great, " "2" " to go!").
Qed.

Lemma encouragement_policy_witness :
  app.get_encouraging_message "B" 2 3 = app.msg_rampage
  /\ app.get_encouraging_message "C" 7 3 = app.msg_achieved
  /\ app.get_encouraging_message "A" 1 10 = app.msg_progress 9.
Proof.
  destruct encouragement_policy as (Hrampage & Hachieved & Hprogress & _).
  split; [|split].
  - apply Hrampage; [set_solver|lia].
  - apply Hachieved; [set_solver|lia].
  - apply (Hprogress "A" 1 10)%Z; [set_solver|lia].
Defined.

(** ** The call handlers *)

Lemma stats_successful (d : string) (st : Store) :
  get_today_stats d st !!! "successful"
  = COUNT (filter (fun k => calls_response k ∈ [R_A; R_B; R_C])
                  (filter (fun k => calls_date k = d) (calls st))).
Proof. by rewrite get_today_stats_dict. Qed.

Lemma check_response_valid (r : string) :
  r ∈ app.valid_responses ->
  exists resp, check_response r = Some resp /\ response_str resp = r
               /\ resp <> R_CATCHUP.
Proof.
  unfold app.valid_responses. rewrite !elem_of_cons, elem_of_nil.
  intros [->|[->|[->|[->|[->|[]]]]]];
    [exists R_A|exists R_B|exists R_C|exists R_NA|exists R_DNP]; done.
Qed.

Lemma check_response_successful (r : string) (resp : Response) :
  r ∈ ["A"; "B"; "C"] -> check_response r = Some resp ->
  resp ∈ [R_A; R_B; R_C].
Proof.
  rewrite !elem_of_cons, elem_of_nil.
  intros [->|[->|[->|[]]]] [= <-]; set_solver.
Qed.

(** C10: an add-call request for a date without a target row, with a name
    and a response in {A, B, C}, is answered with the target-achieved
    message: the handler takes 0 for the target, and the successful count
    it reads includes the call it has just inserted, so remaining is at
    most -1. *)
Theorem add_call_without_target `{PyStr} (env : app.Env)
    (name response date : option string) (st : Store) :
  let n := strip (default "" name) in
  let r := upper (default "" response) in
  let d := default (app.today env) date in
  n <> "" -> r ∈ ["A"; "B"; "C"] -> get_daily_target d st = None ->
  exists call_id st',
    app.add_call env name response date st
    = (app.Reply
         (app.JObj [("success", app.JBool true); ("call_id", app.JInt call_id);
                    ("name", app.JStr n);
                    ("stats", app.json_stats (get_today_stats d st'));
                    ("message", app.json_message app.msg_achieved)])
         200,
       st')
    /\ app.target_or_0 d st' = 0%Z
    /\ (app.target_or_0 d st' - get_today_stats d st' !!! "successful" <= -1)%Z.
Proof.
  intros n r d Hn Hr Htarget. unfold app.add_call. fold n r d.
  rewrite decide_False by done.
  assert (r ∈ app.valid_responses) as Hvalid.
  { unfold app.valid_responses. set_solver. }
  rewrite decide_False by (by intros Hnot).
  destruct (check_response_valid r Hvalid) as (resp & Hresp & _ & _).
  unfold database.add_call. rewrite Hresp.
  set (st' := {| daily_targets := daily_targets st; calls := _ |}).
  assert (app.target_or_0 d st' = 0%Z) as Hzero.
  { unfold app.target_or_0, get_daily_target in *. simpl. by rewrite Htarget. }
  assert (1 <= get_today_stats d st' !!! "successful")%Z as Hone.
  { rewrite stats_successful. unfold COUNT. simpl.
    rewrite !filter_app, !length_app.
    rewrite (filter_singleton_True _ _ []) by done.
    rewrite (filter_singleton_True _ _ [])
      by (by apply (check_response_successful r)).
    simpl. lia. }
  exists (calls_seq st + 1)%Z, st'. split; [|split; [done|lia]].
  rewrite Hzero, message_achieved; [done|done|lia].
Qed.

Lemma add_call_without_target_witness :
  let env := {| app.today := "2024-03-05";
                app.now := fun _ => "2024-03-05 09:30:00" |} in
  ascii_strip " Bob " <> "" /\ ascii_upper "a" ∈ ["A"; "B"; "C"]
  /\ get_daily_target "2024-03-05" empty_store = None
  /\ exists call_id st',
       app.add_call env (Some " Bob ") (Some "a") None empty_store
       = (app.Reply
            (app.JObj [("success", app.JBool true); ("call_id", app.JInt call_id);
                       ("name", app.JStr "Bob");
                       ("stats", app.json_stats (get_today_stats "2024-03-05" st'));
                       ("message", app.json_message app.msg_achieved)])
            200,
          st')
       /\ app.target_or_0 "2024-03-05" st' = 0%Z
       /\ (app.target_or_0 "2024-03-05" st'
           - get_today_stats "2024-03-05" st' !!! "successful" <= -1)%Z.
Proof.
  intros env.
  assert (ascii_strip " Bob " <> "") as Hname by (vm_compute; discriminate).
  assert (ascii_upper "a" ∈ ["A"; "B"; "C"]) as Hresp by (vm_compute; left).
  assert (get_daily_target "2024-03-05" empty_store = None) as Htarget
    by reflexivity.
  split; [exact Hname|]. split; [exact Hresp|]. split; [exact Htarget|].
  exact (add_call_without_target env (Some " Bob ") (Some "a") None empty_store
           Hname Hresp Htarget).
Defined.

(** ** What the handlers write to [calls] *)

Lemma add_contact_calls (name d : string) (skip : bool) (now : string)
    (st st' : Store) (i : Z) :
  database.add_contact name d skip now st = inr (i, st') ->
  calls st' = calls st.
Proof.
  unfold database.add_contact. repeat case_match; try done. by intros [= _ <-].
Qed.

Lemma batch_step_calls `{PyStr} (env : app.Env) (b : app.Batch) (name : string) :
  calls (app.batch_store (app.batch_step env b name)) = calls (app.batch_store b).
Proof.
  unfold app.batch_step. case_decide; [done|].
  destruct (database.add_contact _ _ _ _ _) as [e|[i st']] eqn:E; [done|].
  simpl. by eapply add_contact_calls.
Qed.

Lemma batch_calls `{PyStr} (env : app.Env) (names : list string) (b : app.Batch) :
  calls (app.batch_store (foldl (app.batch_step env) b names))
  = calls (app.batch_store b).
Proof.
  revert b. induction names as [|name names IH]; intros b; [done|].
  simpl. by rewrite IH, batch_step_calls.
Qed.

Lemma valid_response_current (r : string) (resp : Response) :
  r ∈ app.valid_responses -> check_response r = Some resp ->
  resp ∈ [R_A; R_B; R_C; R_NA; R_DNP].
Proof.
  intros Hr Hresp. destruct (check_response_valid r Hr) as (resp' & E & _ & Hne).
  rewrite Hresp in E. injection E as <-. destruct resp; set_solver.
Qed.

(** A row of [calls] after a request was there before it, or carries one of
    the five current responses. *)
Lemma handle_calls `{PyStr} (env : app.Env) (req : app.Request) (st : Store)
    (k : Call) :
  k ∈ calls (app.handle env req st).2 ->
  k ∈ calls st \/ calls_response k ∈ [R_A; R_B; R_C; R_NA; R_DNP].
Proof.
  destruct req as [target date|name response date|call_id date
                  |call_id response date|name date|contact_id|name|names]; simpl.
  - unfold app.set_target, app.bound. repeat case_decide; simpl; auto.
  - unfold app.add_call. repeat case_decide; simpl; auto.
    unfold database.add_call.
    destruct (check_response _) as [resp|] eqn:Hresp; simpl; auto.
    rewrite elem_of_app, list_elem_of_singleton. intros [?| ->]; [by left|right].
    simpl. by eapply valid_response_current.
  - unfold app.delete_call, app.bound. destruct call_id as [i|]; simpl; auto.
    repeat case_decide; simpl; auto. case_match; simpl.
    all: rewrite list_elem_of_filter; intros [_ ?]; by left.
  - unfold app.update_call, app.bound. destruct call_id as [i|]; simpl; auto.
    repeat case_decide; simpl; auto.
    unfold database.update_call. case_bool_decide; simpl; auto.
    destruct (check_response _) as [resp|] eqn:Hresp; simpl; auto.
    rewrite list_elem_of_fmap. intros (k0 & -> & Hk0).
    case_decide; [right|by left]. simpl.
    by eapply valid_response_current.
  - unfold app.add_contact. case_decide; simpl; auto.
    destruct (database.add_contact _ _ _ _ _) as [[msg|msg]|[i st']] eqn:E;
      simpl; auto.
    rewrite (add_contact_calls _ _ _ _ _ _ _ E). auto.
  - unfold app.delete_contact, app.bound. destruct contact_id as [i|]; simpl; auto.
    repeat case_decide; simpl; auto. case_match; simpl; auto.
  - unfold app.add_to_today. case_decide; simpl; auto.
    destruct (database.add_contact _ _ _ _ _) as [[msg|msg]|[i st']] eqn:E;
      simpl; auto.
    rewrite (add_contact_calls _ _ _ _ _ _ _ E). auto.
  - unfold app.add_multiple_to_today. destruct names as [[|name names]|]; simpl; auto.
    change (foldl (app.batch_step env) (app.batch_step env ?b name) names)
      with (foldl (app.batch_step env) b (name :: names)).
    rewrite batch_calls. simpl. auto.
Qed.

(** C9: no request writes a call row with a response outside
    {A, B, C, NA, DNP}: after any request every row of [calls] was there
    before or carries one of the five; call creation and call update answer
    any other response token with a 400 error and leave the store as it
    was; so along any sequence of requests the CATCHUP rows at the end were
    all there at the start. *)
Theorem outcomes_closed `{PyStr} :
  (forall env req st k,
     k ∈ calls (app.handle env req st).2 ->
     k ∈ calls st \/ calls_response k ∈ [R_A; R_B; R_C; R_NA; R_DNP])
  /\ (forall env name response date st,
        upper (default "" response) ∉ ["A"; "B"; "C"; "NA"; "DNP"] ->
        exists msg,
          app.add_call env name response date st
          = (app.Reply (app.error msg) 400, st))
  /\ (forall env call_id response date st,
        upper (default "" response) ∉ ["A"; "B"; "C"; "NA"; "DNP"] ->
        exists msg,
          app.update_call env call_id response date st
          = (app.Reply (app.error msg) 400, st))
  /\ (forall st st', rtc app.step st st' ->
        forall k, k ∈ calls st' -> calls_response k = R_CATCHUP -> k ∈ calls st).
Proof.
  split; [apply handle_calls|]. split; [|split].
  - intros env name response date st Hbad. unfold app.add_call.
    case_decide; [by eexists|]. rewrite decide_True by done. by eexists.
  - intros env call_id response date st Hbad. unfold app.update_call.
    destruct call_id as [i|]; [|by eexists].
    case_decide; [by eexists|]. rewrite decide_True by done. by eexists.
  - intros st st' Hsteps. induction Hsteps as [st|st st1 st2 Hstep _ IH]; [done|].
    intros k Hk Hcatchup. destruct Hstep as [env req st].
    destruct (handle_calls env req st k (IH k Hk Hcatchup)) as [?|Hcur]; [done|].
    rewrite Hcatchup in Hcur. set_solver.
Qed.

Lemma outcomes_closed_witness :
  let env := {| app.today := "2024-03-05";
                app.now := fun _ => "2024-03-05 09:30:00" |} in
  (ascii_upper "catchup" ∉ ["A"; "B"; "C"; "NA"; "DNP"])
  /\ exists msg,
       app.add_call env (Some "Bob") (Some "catchup") None empty_store
       = (app.Reply (app.error msg) 400, empty_store).
Proof.
  intros env.
  assert (ascii_upper "catchup" ∉ ["A"; "B"; "C"; "NA"; "DNP"]) as Hbad.
  { apply (bool_decide_unpack _). by vm_compute. }
  split; [exact Hbad|].
  exact (proj1 (proj2 outcomes_closed) env (Some "Bob") (Some "catchup") None
               empty_store Hbad).
Defined.

(** ** Error reporting of the mutating endpoints *)

Lemma filter_all {A} (P : A -> Prop) `{forall x, Decision (P x)} (l : list A) :
  Forall P l -> filter P l = l.
Proof.
  induction 1 as [|x l Hx _ IH]; [done|]. by rewrite filter_cons_True, IH.
Qed.




Lemma error_reply_400 (msg : string) : error_reply (app.Reply (app.error msg) 400).
Proof. exists msg, 400%Z. split; [done|lia]. Qed.

Lemma error_reply_404 (msg : string) : error_reply (app.Reply (app.error msg) 404).
Proof. exists msg, 404%Z. split; [done|lia]. Qed.

#[local] Hint Resolve error_reply_400 error_reply_404 : core.













(** ** Adding a contact *)

Lemma add_contact_raises_for_date (name d : string) (skip : bool) (now : string)
    (st : Store) :
  Exists (fun c => contacts_name c = name /\ contacts_date c = d) (contacts st) ->
  database.add_contact name d skip now st
  = inl (ValueError ("Contact '" +:+ name +:+ "' already in today's list")).
Proof.
  intros Hex. unfold database.add_contact, contact_exists_for_date.
  by rewrite bool_decide_eq_true_2.
Qed.

Lemma add_contact_raises_anywhere (name d now : string) (st : Store) :
  Exists (fun c => LOWER (contacts_name c) = LOWER name) (contacts st) ->
  exists msg, database.add_contact name d false now st = inl (ValueError msg).
Proof.
  intros Hex. unfold database.add_contact, contact_exists_anywhere.
  destruct (contact_exists_for_date name d st); [by eexists|].
  rewrite (bool_decide_eq_true_2 _ Hex). by eexists.
Qed.

Lemma add_contact_inserts (name d : string) (skip : bool) (now : string)
    (st : Store) :
  ~ Exists (fun c => contacts_name c = name /\ contacts_date c = d) (contacts st) ->
  skip = true
  \/ ~ Exists (fun c => LOWER (contacts_name c) = LOWER name) (contacts st) ->
  database.add_contact name d skip now st
  = inr ((contacts_seq st + 1)%Z,
         {| daily_targets := daily_targets st;
            calls := calls st; calls_seq := calls_seq st;
            contacts := contacts st ++
              [ {| contacts_id := contacts_seq st + 1; contacts_name := name;
                   contacts_date := d; contacts_created_at := now |} ];
            contacts_seq := contacts_seq st + 1 |}).
Proof.
  intros Hdate Hany. unfold database.add_contact, contact_exists_for_date,
    contact_exists_anywhere.
  rewrite (bool_decide_eq_false_2 _ Hdate).
  destruct Hany as [->|Hany]; simpl.
  - done.
  - rewrite (bool_decide_eq_false_2 _ Hany). by destruct skip.
Qed.

(** C2, on the code: with Bob in the list of 2024-03-05, adding "bob" to
    the same day with the global check skipped does not raise: the per-date
    check compares names exactly, and a second row for the same name up to
    case is inserted for that date. *)
Theorem add_contact_same_date_other_case :
  Exists (fun c => LOWER (contacts_name c) = LOWER "bob"
                   /\ contacts_date c = "2024-03-05")
         (contacts store_with_bob)
  /\ database.add_contact "bob" "2024-03-05" true "2024-03-05 09:31:00"
       store_with_bob
     = inr (2%Z,
            {| daily_targets := ∅; calls := []; calls_seq := 0;
               contacts :=
                 [ {| contacts_id := 1; contacts_name := "Bob";
                      contacts_date := "2024-03-05";
                      contacts_created_at := "2024-03-05 09:30:00" |};
                   {| contacts_id := 2; contacts_name := "bob";
                      contacts_date := "2024-03-05";
                      contacts_created_at := "2024-03-05 09:31:00" |} ];
               contacts_seq := 2 |}).
Proof.
  split; [|reflexivity]. apply (bool_decide_unpack _). by vm_compute.
Qed.

(** ** Calendar dates as text *)

Section iso_facts.
Import Text TextFacts.










End iso_facts.

(** ** The month achievements *)




(** The dict built from a [GROUP BY date] query, read with [.get(d, 0)]. *)
Lemma group_counts_get (l : list Call) (d : string) :
  default 0%Z
    ((list_to_map ((fun g : string * list Call => (g.1, COUNT g.2)) <$>
                     group_by calls_date l) : gmap string Z) !! d)
  = COUNT (filter (fun k => calls_date k = d) l).
Proof.
  set (rows := (fun g : string * list Call => (g.1, COUNT g.2)) <$> _).
  assert (rows.*1 = (group_by calls_date l).*1) as Hkeys.
  { unfold rows. rewrite <- !list_fmap_compose. done. }
  destruct (decide (d ∈ calls_date <$> l)) as [Hin|Hout].
  - rewrite (elem_of_list_to_map_1 rows d
               (COUNT (filter (fun k => calls_date k = d) l))); [done| |].
    + rewrite Hkeys. apply NoDup_group_by_keys.
    + unfold rows. apply list_elem_of_fmap.
      exists (d, filter (fun k => calls_date k = d) l). split; [done|].
      by apply elem_of_group_by.
  - rewrite not_elem_of_list_to_map_1.
    + simpl. destruct (filter _ l) as [|x xs] eqn:E; [done|]. exfalso.
      assert (x ∈ filter (fun k => calls_date k = d) l) as Hx by (rewrite E; left).
      apply list_elem_of_filter in Hx as [<- Hx]. by apply Hout, list_elem_of_fmap_2.
    + by rewrite Hkeys, group_by_keys, elem_of_remove_dups.
Qed.

Lemma get_month_achievements_lookup (year month : Z) (st : Store) (d : string) :
  get_month_achievements year month st !! d
  = t ← daily_targets st !! d;
    if decide (in_range (month_start year month) (month_end year month) d)
    then Some (bool_decide (t <= successful_on st d)%Z)
    else None.
Proof.
  unfold get_month_achievements. cbv zeta.
  rewrite map_lookup_imap, map_lookup_filter.
  destruct (daily_targets st !! d) as [t|]; [|done]. simpl.
  case_guard as Hrange; simpl in *.
  - rewrite group_counts_get.
    unfold successful_on. rewrite list_filter_filter.
    rewrite (filter_ext_elem _
               (fun k => calls_date k = d /\ calls_response k ∈ [R_A; R_B; R_C]));
      [done|].
    intros k _. split; [tauto|]. intros [Hd Hr]. by rewrite Hd.
  - done.
Qed.



(** ** Facts about [ORDER BY] *)

Create HintDb text discriminated.
#[export] Hint Resolve TextFacts.lt_trans TextFacts.le_trans
  TextFacts.lt_le_trans TextFacts.le_lt_trans TextFacts.le_refl
  TextFacts.lt_le : text.

Lemma text_trichotomy (a b : string) : Text.lt a b \/ a = b \/ Text.lt b a.
Proof.
  destruct (TextFacts.le_total a b) as [H|H];
    apply TextFacts.le_lteq in H as [?| ->]; auto.
Qed.

Section order_by_facts.
Context {A : Type} (R : relation A) `{forall x y, Decision (R x y)}.

Lemma insert_by_perm (x : A) (l : list A) : insert_by R x l ≡ₚ x :: l.
Proof.
  induction l as [|y l IH]; simpl; [done|].
  case_decide; [done|]. by rewrite IH, Permutation_swap.
Qed.

Lemma order_by_perm (l : list A) : order_by R l ≡ₚ l.
Proof.
  induction l as [|x l IH]; simpl; [done|].
  by rewrite insert_by_perm, IH.
Qed.

Lemma elem_of_order_by (l : list A) (x : A) : x ∈ order_by R l <-> x ∈ l.
Proof. by rewrite order_by_perm. Qed.

Lemma head_order_by_None (l : list A) : head (order_by R l) = None <-> l = [].
Proof.
  pose proof (order_by_perm l) as Hperm. split.
  - destruct (order_by R l); [|done]. intros _. by apply Permutation_nil.
  - intros ->. done.
Qed.



Context `{!Transitive R, !Total R}.

Lemma insert_by_sorted (x : A) (l : list A) :
  StronglySorted R l -> StronglySorted R (insert_by R x l).
Proof.
  induction 1 as [|y l Hsorted IH Hall]; simpl.
  - by repeat constructor.
  - case_decide as Hxy.
    + constructor; [by constructor|]. constructor; [done|].
      eapply Forall_impl; [exact Hall|]. intros z Hz. by trans y.
    + constructor; [done|]. rewrite insert_by_perm. constructor; [|done].
      by destruct (total R x y).
Qed.

Lemma order_by_sorted (l : list A) : StronglySorted R (order_by R l).
Proof.
  induction l as [|x l IH]; simpl; [constructor|]. by apply insert_by_sorted.
Qed.

(** [LIMIT 1] after [ORDER BY]: the first of the rows that no row precedes
    strictly.  Every row before it in the input sorts strictly after it. *)
Lemma head_order_by_first (l : list A) (x : A) :
  head (order_by R l) = Some x ->
  exists l1 l2, l = l1 ++ x :: l2
    /\ (forall y, y ∈ l1 -> ~ R y x) /\ (forall y, y ∈ l2 -> R x y).
Proof.
  revert x. induction l as [|a l IH]; intros x; simpl; [done|].
  destruct (order_by R l) as [|y s] eqn:E; simpl.
  - intros [= ->]. apply (f_equal head) in E. apply head_order_by_None in E as ->.
    exists [], []. split; [done|]. split; intros y; by rewrite elem_of_nil.
  - destruct (IH y eq_refl) as (l1 & l2 & -> & Hbefore & Hafter).
    case_decide as Hay; simpl; intros [= <-].
    + exists [], (l1 ++ y :: l2). split; [done|].
      split; [intros z; by rewrite elem_of_nil|].
      intros z [Hz|[->|Hz]%elem_of_cons]%elem_of_app; [|done|].
      * trans y; [done|]. destruct (total R y z) as [|Hzy]; [done|].
        by apply Hbefore in Hzy.
      * trans y; [done|]. by apply Hafter.
    + exists (a :: l1), l2. split; [done|]. split; [|done].
      intros z [->|Hz]%elem_of_cons; [done|]. by apply Hbefore.
Qed.

Lemma head_order_by (l : list A) (x : A) :
  head (order_by R l) = Some x -> x ∈ l /\ forall y, y ∈ l -> R x y.
Proof.
  intros (l1 & l2 & -> & Hbefore & Hafter)%head_order_by_first.
  split; [set_solver|].
  intros y [Hy|[Heq|Hy]%elem_of_cons]%elem_of_app.
  - destruct (total R x y) as [|Hyx]; [done|]. by apply Hbefore in Hyx.
  - subst y. by destruct (total R x x).
  - by apply Hafter.
Qed.

End order_by_facts.

Lemma StronglySorted_impl_elem {A} (R1 R2 : relation A) (l : list A) :
  (forall x y, x ∈ l -> y ∈ l -> R1 x y -> R2 x y) ->
  StronglySorted R1 l -> StronglySorted R2 l.
Proof.
  intros Himpl Hsorted. induction Hsorted as [|x l Hsorted IH Hall].
  - constructor.
  - constructor.
    + apply IH. intros y z Hy Hz. apply Himpl; by right.
    + rewrite Forall_forall in *. intros y Hy.
      apply Himpl; [left|by right|by apply Hall].
Qed.

#[global] Instance latest_first_trans : Transitive latest_first.
Proof.
  intros k1 k2 k3 [H12|[E12 H12]] [H23|[E23 H23]]; unfold latest_first.
  - left. eauto with text.
  - left. by rewrite <- E23.
  - left. by rewrite E12.
  - right. split; [congruence|eauto with text].
Qed.

#[global] Instance latest_first_total : Total latest_first.
Proof.
  intros k1 k2. unfold latest_first.
  destruct (text_trichotomy (calls_date k1) (calls_date k2)) as [?|[E|?]]; auto.
  destruct (TextFacts.le_total (calls_created_at k1) (calls_created_at k2)); auto.
Qed.

#[global] Instance contact_row_order_trans : Transitive contact_row_order.
Proof.
  intros r1 r2 r3 [[H1 H2]|[E12 H12]] [[H2' H3]|[E23 H23]];
    unfold contact_row_order.
  - congruence.
  - left. split; congruence.
  - left. split; congruence.
  - right. split; [congruence|eauto with text].
Qed.

#[global] Instance contact_row_order_total : Total contact_row_order.
Proof.
  intros r1 r2. unfold contact_row_order.
  destruct (cr_has_call_today r1.1), (cr_has_call_today r2.1); auto;
    destruct (TextFacts.le_total r1.2 r2.2); auto.
Qed.

Lemma null_lt_trans (a b c : option string) :
  null_lt a b -> null_lt b c -> null_lt a c.
Proof.
  destruct a, b, c; simpl; try done; try tauto. apply TextFacts.lt_trans.
Qed.

Lemma null_trichotomy (a b : option string) : null_lt a b \/ a = b \/ null_lt b a.
Proof.
  destruct a as [x|], b as [y|]; simpl; auto.
  destruct (text_trichotomy x y) as [?|[->|?]]; auto.
Qed.

#[global] Instance summary_order_trans : Transitive summary_order.
Proof.
  intros r1 r2 r3 [H12|[F12 H12]] [H23|[F23 H23]]; unfold summary_order.
  - left. lia.
  - left. lia.
  - left. lia.
  - right. split; [lia|].
    destruct H12 as [H12|[E12 H12]], H23 as [H23|[E23 H23]].
    + left. eauto using null_lt_trans.
    + left. by rewrite <- E23.
    + left. by rewrite E12.
    + right. split; [congruence|eauto with text].
Qed.

#[global] Instance summary_order_total : Total summary_order.
Proof.
  intros r1 r2. unfold summary_order.
  destruct (Z.lt_trichotomy (null_flag r1) (null_flag r2)) as [?|[E|?]]; auto.
  destruct (null_trichotomy (sr_last_called_date r1) (sr_last_called_date r2))
    as [?|[E'|?]]; auto.
  destruct (TextFacts.le_total (sr_name r1) (sr_name r2)); auto 6.
Qed.

(** ** The latest call of a name *)

Lemma filter_split {A} (P : A -> Prop) `{forall x, Decision (P x)}
    (l l1 l2 : list A) (x : A) :
  filter P l = l1 ++ x :: l2 ->
  exists m1 m2, l = m1 ++ x :: m2 /\ filter P m1 = l1 /\ filter P m2 = l2.
Proof.
  revert l1. induction l as [|a l IH]; intros l1 Hfilter.
  - by destruct l1.
  - rewrite filter_cons in Hfilter. destruct (decide (P a)) as [Ha|Ha].
    + destruct l1 as [|b l1]; simpl in Hfilter; injection Hfilter as -> Hfilter.
      * exists [], l. by rewrite filter_nil.
      * destruct (IH l1 Hfilter) as (m1 & m2 & -> & <- & <-).
        exists (b :: m1), m2. by rewrite filter_cons_True.
    + destruct (IH l1 Hfilter) as (m1 & m2 & -> & <- & <-).
      exists (a :: m1), m2. by rewrite filter_cons_False.
Qed.

Lemma latest_first_not_later (k1 k2 : Call) : latest_first k1 k2 <-> not_later k2 k1.
Proof. unfold latest_first, not_later. intuition. Qed.

Lemma latest_call_Some (cs : list Call) (n : string) (k : Call) :
  latest_call cs n = Some k ->
  k ∈ cs /\ calls_name k = n
  /\ (forall k', k' ∈ cs -> calls_name k' = n -> not_later k' k)
  /\ exists before after,
       cs = before ++ k :: after
       /\ forall k', k' ∈ before -> calls_name k' = n -> ~ not_later k k'.
Proof.
  unfold latest_call. intros Hhead.
  pose proof (head_order_by_first latest_first _ _ Hhead)
    as (l1 & l2 & Hsplit & Hbefore & _).
  apply (head_order_by latest_first) in Hhead as [Hk Hmax].
  apply list_elem_of_filter in Hk as [Hname Hk]. split; [done|]. split; [done|].
  split.
  - intros k' Hk' Hname'. apply latest_first_not_later, Hmax.
    by apply list_elem_of_filter.
  - apply filter_split in Hsplit as (before & after & -> & <- & _).
    exists before, after. split; [done|].
    intros k' Hk' Hname'. rewrite <- latest_first_not_later. apply Hbefore.
    by apply list_elem_of_filter.
Qed.

Lemma latest_call_None (cs : list Call) (n : string) :
  latest_call cs n = None <-> ~ called cs n.
Proof.
  unfold latest_call, called. rewrite (head_order_by_None latest_first).
  rewrite Exists_exists. split.
  - intros Hnil (k & Hk & Hname).
    assert (k ∈ filter (fun k => calls_name k = n) cs) as Hin
      by by apply list_elem_of_filter.
    rewrite Hnil in Hin. by apply elem_of_nil in Hin.
  - intros Hnone. destruct (filter _ cs) as [|k l] eqn:E; [done|]. exfalso.
    assert (k ∈ filter (fun k => calls_name k = n) cs) as Hin by (rewrite E; left).
    apply list_elem_of_filter in Hin as [Hname Hin]. apply Hnone. eauto.
Qed.

(** The row of the sub-select [latest] that joins a name in the summary is
    the row that the sub-query of [get_contacts_for_date] selects. *)
Lemma row_number_from_later {A} (P : A -> Prop) `{forall x, Decision (P x)}
    (i : Z) (l : list A) :
  (1 < i)%Z ->
  filter (fun row : A * Z => P row.1 /\ row.2 = 1%Z) (row_number_from i l) = [].
Proof.
  revert i. induction l as [|x l IH]; intros i Hi; simpl; [done|].
  rewrite filter_cons_False by (simpl; lia). apply IH. lia.
Qed.

Lemma row_number_first {A} (P : A -> Prop) `{forall x, Decision (P x)} (l : list A) :
  Forall P l ->
  fst <$> head (filter (fun row : A * Z => P row.1 /\ row.2 = 1%Z)
                       (row_number_from 1 l))
  = head l.
Proof.
  destruct l as [|x l]; [done|]. intros [Hx _]%Forall_cons. simpl.
  by rewrite filter_cons_True.
Qed.

Lemma row_number_other {A} (P : A -> Prop) `{forall x, Decision (P x)}
    (i : Z) (l : list A) :
  Forall (fun x => ~ P x) l ->
  filter (fun row : A * Z => P row.1 /\ row.2 = 1%Z) (row_number_from i l) = [].
Proof.
  revert i. induction l as [|x l IH]; intros i Hl; simpl; [done|].
  apply Forall_cons in Hl as [Hx Hl].
  rewrite filter_cons_False by (simpl; tauto). by apply IH.
Qed.

Lemma latest_row_names (cs : list Call) (n : string) (names : list string) :
  fst <$> head (filter (fun row : Call * Z => calls_name row.1 = n /\ row.2 = 1%Z)
                  (((fun k => (k, filter (fun x => calls_name x = k) cs)) <$> names)
                     ≫= fun g => row_number_from 1 (order_by latest_first g.2)))
  = if decide (n ∈ names) then latest_call cs n else None.
Proof.
  induction names as [|k names IH]; [done|].
  rewrite fmap_cons, bind_cons, filter_app. cbn [snd].
  destruct (decide (k = n)) as [->|Hk].
  - rewrite decide_True by left.
    pose proof (row_number_first (fun x => calls_name x = n)
                  (order_by latest_first (filter (fun x => calls_name x = n) cs)))
      as Hfirst.
    cbv beta in Hfirst. fold (latest_call cs n) in Hfirst.
    destruct (filter _ (row_number_from 1 _)) as [|row rows] eqn:E.
    + simpl. rewrite IH. rewrite <- Hfirst; [by case_decide|].
      apply Forall_forall. intros x Hx%elem_of_order_by.
      by apply list_elem_of_filter in Hx as [? _].
    + simpl. rewrite <- Hfirst; [done|].
      apply Forall_forall. intros x Hx%elem_of_order_by.
      by apply list_elem_of_filter in Hx as [? _].
  - pose proof (row_number_other (fun x => calls_name x = n) 1
                  (order_by latest_first (filter (fun x => calls_name x = k) cs)))
      as Hother.
    cbv beta in Hother. rewrite Hother.
    + simpl. rewrite IH. repeat case_decide; set_solver.
    + apply Forall_forall. intros x Hx%elem_of_order_by.
      apply list_elem_of_filter in Hx as [? _]. congruence.
Qed.

Lemma latest_row_latest_call (cs : list Call) (n : string) :
  latest_row cs n = latest_call cs n.
Proof.
  unfold latest_row, latest, group_by. rewrite latest_row_names.
  case_decide as Hn; [done|]. symmetry. apply latest_call_None.
  intros (k & Hk & Hname)%Exists_exists. apply Hn.
  rewrite elem_of_remove_dups, list_elem_of_fmap. eauto.
Qed.

(** ** Facts about the aggregates *)

Lemma foldl_max_text (x : string) (l : list string) :
  foldl Text.max x l ∈ x :: l
  /\ forall y, y ∈ x :: l -> Text.le y (foldl Text.max x l).
Proof.
  revert x. induction l as [|z l IH]; intros x; simpl.
  - split; [left|]. intros y ->%list_elem_of_singleton. apply TextFacts.le_refl.
  - destruct (IH (Text.max x z)) as [Hin Hmax]. split.
    + apply elem_of_cons in Hin as [->|Hin]; [|by do 2 right].
      unfold Text.max. case_decide; [right; left|left].
    + intros y Hy. assert (Text.le y (Text.max x z) \/ y ∈ l) as [Hle|Hl].
      { apply elem_of_cons in Hy as [->|Hy].
        - left. unfold Text.max. case_decide; [done|apply TextFacts.le_refl].
        - apply elem_of_cons in Hy as [->|Hy]; [|by right].
          left. unfold Text.max. case_decide; [apply TextFacts.le_refl|].
          by destruct (TextFacts.le_total x z). }
      * eapply TextFacts.le_trans; [done|]. apply Hmax. left.
      * apply Hmax. by right.
Qed.

Lemma foldl_min_text (x : string) (l : list string) :
  foldl Text.min x l ∈ x :: l
  /\ forall y, y ∈ x :: l -> Text.le (foldl Text.min x l) y.
Proof.
  revert x. induction l as [|z l IH]; intros x; simpl.
  - split; [left|]. intros y ->%list_elem_of_singleton. apply TextFacts.le_refl.
  - destruct (IH (Text.min x z)) as [Hin Hmin]. split.
    + apply elem_of_cons in Hin as [->|Hin]; [|by do 2 right].
      unfold Text.min. case_decide; [left|right; left].
    + intros y Hy. assert (Text.le (Text.min x z) y \/ y ∈ l) as [Hle|Hl].
      { apply elem_of_cons in Hy as [->|Hy].
        - left. unfold Text.min. case_decide; [apply TextFacts.le_refl|].
          by destruct (TextFacts.le_total x z).
        - apply elem_of_cons in Hy as [->|Hy]; [|by right].
          left. unfold Text.min. case_decide; [done|apply TextFacts.le_refl]. }
      * eapply TextFacts.le_trans; [|done]. apply Hmin. left.
      * apply Hmin. by right.
Qed.

Lemma foldl_max_Z (x : Z) (l : list Z) : foldl Z.max x l ∈ x :: l.
Proof.
  revert x. induction l as [|z l IH]; intros x; simpl; [left|].
  pose proof (IH (Z.max x z)) as [E|Hin]%elem_of_cons; [|by do 2 right].
  rewrite E. destruct (Z.max_spec x z) as [[_ ->]|[_ ->]]; [right; left|left].
Qed.

(** ** The contact resolution engine *)

Lemma get_contacts_for_date_rows (d : string) (st : Store) :
  get_contacts_for_date d st = fst <$> order_by contact_row_order (contact_rows d st).
Proof. reflexivity. Qed.

Lemma contacts_index_perm (st : Store) : contacts_index st ≡ₚ contacts st.
Proof. apply order_by_perm. Qed.

Lemma elem_of_contacts_index (st : Store) (c : Contact) :
  c ∈ contacts_index st <-> c ∈ contacts st.
Proof. by rewrite contacts_index_perm. Qed.

Lemma group_of_matching (d : string) (st : Store) (n : string) (g : list Contact) :
  (n, g) ∈ group_by contacts_name (filter (shown (calls st) d) (contacts_index st)) ->
  g ≡ₚ matching st d n.
Proof.
  intros [_ ->]%elem_of_group_by. unfold matching.
  by rewrite list_filter_filter, contacts_index_perm.
Qed.

(** The least [created_at] of a group does not depend on the order of its
    rows. *)
Lemma first_created_perm (c c' : Contact) (rest rest' : list Contact) :
  c :: rest ≡ₚ c' :: rest' ->
  foldl Text.min (contacts_created_at c) (contacts_created_at <$> rest)
  = foldl Text.min (contacts_created_at c') (contacts_created_at <$> rest').
Proof.
  intros Hperm.
  apply (fmap_Permutation contacts_created_at) in Hperm. rewrite !fmap_cons in Hperm.
  destruct (foldl_min_text (contacts_created_at c) (contacts_created_at <$> rest))
    as [Hin Hle].
  destruct (foldl_min_text (contacts_created_at c') (contacts_created_at <$> rest'))
    as [Hin' Hle'].
  apply TextFacts.le_antisym.
  - apply Hle. by rewrite Hperm.
  - apply Hle'. by rewrite <- Hperm.
Qed.

Lemma contact_rows_names (d : string) (st : Store) :
  (fun p : ContactRow * string => cr_name p.1) <$> contact_rows d st
  = remove_dups (contacts_name <$> filter (shown (calls st) d) (contacts_index st)).
Proof.
  unfold contact_rows. rewrite <- group_by_keys.
  pose proof (group_by_nonempty contacts_name
                (filter (shown (calls st) d) (contacts_index st))) as Hne.
  induction (group_by contacts_name _) as [|[n g] gs IH]; [done|].
  destruct (Hne n g) as (c & rest & ->); [left|]. simpl.
  unfold contact_group_row at 1. simpl. f_equal.
  apply IH. intros k g' Hin. apply (Hne k g'). by right.
Qed.

Lemma contact_rows_spec (d : string) (st : Store) (r : ContactRow) (m : string) :
  (r, m) ∈ contact_rows d st ->
  matching st d (cr_name r) <> []
  /\ cr_id r ∈ contacts_id <$> matching st d (cr_name r)
  /\ cr_added_date r ∈ contacts_date <$> matching st d (cr_name r)
  /\ (forall c, c ∈ matching st d (cr_name r) ->
        Text.le (contacts_date c) (cr_added_date r))
  /\ cr_has_call_today r = bool_decide (called_on (calls st) (cr_name r) d)
  /\ m = first_registered st d (cr_name r)
  /\ m ∈ contacts_created_at <$> matching st d (cr_name r)
  /\ (forall c, c ∈ matching st d (cr_name r) -> Text.le m (contacts_created_at c)).
Proof.
  unfold contact_rows. rewrite list_elem_of_omap. intros ([n g] & Hg & Hrow).
  apply group_of_matching in Hg. unfold contact_group_row in Hrow. simpl in Hrow.
  destruct g as [|c rest]; [done|]. injection Hrow as <- <-. simpl.
  unfold first_registered.
  pose proof (foldl_max_text (contacts_date c) (contacts_date <$> rest)) as [Hd1 Hd2].
  pose proof (foldl_min_text (contacts_created_at c) (contacts_created_at <$> rest))
    as [Hc1 Hc2].
  pose proof (foldl_max_Z (contacts_id c) (contacts_id <$> rest)) as Hid.
  rewrite <- (fmap_cons contacts_date) in Hd1, Hd2.
  rewrite <- (fmap_cons contacts_created_at) in Hc1, Hc2.
  rewrite <- (fmap_cons contacts_id) in Hid.
  destruct (matching st d n) as [|c' rest'] eqn:Hm.
  { symmetry in Hg. by apply Permutation_nil_cons in Hg. }
  split; [done|]. split; [by rewrite <- Hg|]. split; [by rewrite <- Hg|]. split.
  { intros c0 Hc0. rewrite <- Hg in Hc0. apply Hd2.
    by apply (list_elem_of_fmap_2 contacts_date) in Hc0. }
  split; [done|]. split; [by apply first_created_perm|].
  split; [by rewrite <- Hg|].
  intros c0 Hc0. rewrite <- Hg in Hc0. apply Hc2.
  by apply (list_elem_of_fmap_2 contacts_created_at) in Hc0.
Qed.

Lemma get_contacts_for_date_names_perm (d : string) (st : Store) :
  cr_name <$> get_contacts_for_date d st
  ≡ₚ remove_dups (contacts_name <$> filter (shown (calls st) d) (contacts_index st)).
Proof.
  rewrite get_contacts_for_date_rows, <- contact_rows_names.
  rewrite <- list_fmap_compose. apply fmap_Permutation, order_by_perm.
Qed.

Lemma elem_of_get_contacts_for_date (d : string) (st : Store) (r : ContactRow) :
  r ∈ get_contacts_for_date d st <-> exists m, (r, m) ∈ contact_rows d st.
Proof.
  rewrite get_contacts_for_date_rows, list_elem_of_fmap. split.
  - intros ([r' m] & -> & Hin). exists m. by apply elem_of_order_by in Hin.
  - intros [m Hin]. exists (r, m). split; [done|]. by apply elem_of_order_by.
Qed.

(** A name is in the list of a date exactly when one of its rows passes
    the [WHERE] clause. *)
Lemma get_contacts_for_date_names (d : string) (st : Store) (n : string) :
  n ∈ cr_name <$> get_contacts_for_date d st
  <-> exists c, c ∈ contacts st /\ contacts_name c = n /\ shown (calls st) d c.
Proof.
  rewrite get_contacts_for_date_names_perm, elem_of_remove_dups, list_elem_of_fmap.
  split.
  - intros (c & -> & [Hshown Hc]%list_elem_of_filter).
    apply elem_of_contacts_index in Hc. eauto.
  - intros (c & Hc & <- & Hshown). exists c. split; [done|].
    apply list_elem_of_filter. by rewrite elem_of_contacts_index.
Qed.

Lemma check_response_DNP (s : string) :
  check_response s = Some R_DNP <-> s = "DNP".
Proof.
  unfold check_response. split; [|by intros ->].
  repeat case_decide; done.
Qed.

(** The scenario of a contact carried forward: registered on day 1 and
    never called, then called once on day 2. *)
Lemma carried_forward (st : Store) (n day1 day2 day3 response now : string) :
  (exists c, c ∈ contacts st /\ contacts_name c = n) ->
  (forall c, c ∈ contacts st -> contacts_name c = n -> contacts_date c = day1) ->
  ~ called (calls st) n ->
  Text.lt day1 day2 -> Text.lt day2 day3 ->
  n ∈ cr_name <$> get_contacts_for_date day2 st
  /\ forall i st',
       database.add_call n response day2 now st = inr (i, st') ->
       (n ∈ cr_name <$> get_contacts_for_date day3 st' <-> response = "DNP").
Proof.
  intros (c & Hc & Hname) Hday1 Hnone H12 H23. split.
  - apply get_contacts_for_date_names. exists c. split; [done|]. split; [done|].
    right. left. rewrite (Hday1 c Hc Hname), Hname. done.
  - intros i st'. unfold database.add_call.
    destruct (check_response response) as [r|] eqn:Hr; [|done].
    intros [= <- <-]. rewrite get_contacts_for_date_names. simpl.
    set (new := {| calls_id := _ |}).
    assert (forall k, k ∈ calls st ++ [new] -> calls_name k = n -> k = new) as Honly.
    { intros k [Hk| ->%list_elem_of_singleton]%elem_of_app Hkn; [|done].
      exfalso. apply Hnone, Exists_exists. eauto. }
    assert (latest_call (calls st ++ [new]) n = Some new) as Hlatest.
    { destruct (latest_call (calls st ++ [new]) n) as [k|] eqn:E.
      - apply latest_call_Some in E as (Hk & Hkn & _). f_equal. by apply Honly.
      - apply latest_call_None in E. exfalso. apply E, Exists_exists.
        exists new. split; [|done]. apply elem_of_app. right. left. }
    assert (Text.lt day1 day3) as H13 by eauto with text.
    rewrite <- check_response_DNP, Hr. split.
    + intros (c' & Hc' & Hname' & Hshown).
      unfold shown in Hshown. rewrite Hname', Hlatest in Hshown.
      destruct Hshown as [Hd|[[_ Hno]|[[_ Hdnp]|[_ Hon]]]].
      * rewrite (Hday1 c' Hc') in Hd by done. subst.
        by apply TextFacts.lt_irrefl in H13.
      * exfalso. apply Hno, Exists_exists. exists new. split; [|done].
        apply elem_of_app. right. left.
      * simpl in Hdnp. congruence.
      * apply Exists_exists in Hon as (k & Hk & Hkn & Hkd).
        rewrite (Honly k Hk Hkn) in Hkd. simpl in Hkd.
        subst. by apply TextFacts.lt_irrefl in H23.
    + intros [= ->]. exists c. split; [done|]. split; [done|].
      right. right. left. rewrite (Hday1 c Hc Hname), Hname, Hlatest. done.
Qed.

(** C1: a name is in the list of a date exactly when one of its contact
    rows is dated that day, or one of its rows is dated earlier and the name
    has no call at all, or its latest call (by date, then created_at) is a
    DNP, or it has a call dated that day.  The latest call is a call of the
    name that no call of the name follows in (date, created_at) order, the
    first inserted of them when several share the latest date and
    created_at, and there is none exactly when the name was never called.  A contact
    registered on day 1 and never called is in the list of day 2; after one
    call on day 2 it is in the list of day 3 exactly when that call was a
    DNP. *)
Theorem contacts_for_date_selection :
  (forall d st n,
     n ∈ cr_name <$> get_contacts_for_date d st <->
     (exists c, c ∈ contacts st /\ contacts_name c = n /\ contacts_date c = d)
     \/ (exists c, c ∈ contacts st /\ contacts_name c = n
                   /\ Text.lt (contacts_date c) d
                   /\ (~ called (calls st) n
                       \/ (exists k, latest_call (calls st) n = Some k
                                     /\ calls_response k = R_DNP)
                       \/ called_on (calls st) n d)))
  /\ (forall cs n k,
        latest_call cs n = Some k ->
        k ∈ cs /\ calls_name k = n
        /\ (forall k', k' ∈ cs -> calls_name k' = n -> not_later k' k)
        /\ exists before after,
             cs = before ++ k :: after
             /\ forall k', k' ∈ before -> calls_name k' = n -> ~ not_later k k')
  /\ (forall cs n, latest_call cs n = None <-> ~ called cs n)
  /\ (forall st n day1 day2 day3 response now,
        (exists c, c ∈ contacts st /\ contacts_name c = n) ->
        (forall c, c ∈ contacts st -> contacts_name c = n -> contacts_date c = day1) ->
        ~ called (calls st) n ->
        Text.lt day1 day2 -> Text.lt day2 day3 ->
        n ∈ cr_name <$> get_contacts_for_date day2 st
        /\ forall i st',
             database.add_call n response day2 now st = inr (i, st') ->
             (n ∈ cr_name <$> get_contacts_for_date day3 st' <-> response = "DNP")).
Proof.
  split; [|split; [apply latest_call_Some|split; [apply latest_call_None|]]].
  - intros d st n. rewrite get_contacts_for_date_names. unfold shown. split.
    + intros (c & Hc & Hname & Hshown). rewrite Hname in Hshown.
      destruct Hshown as [Hd|[[Hlt Hno]|[[Hlt Hdnp]|[Hlt Hon]]]];
        [left; eauto|right; exists c; repeat (split; [done|])..].
      * by left.
      * right. left. destruct (latest_call (calls st) n) as [k|]; [|done].
        exists k. split; [done|]. by injection Hdnp.
      * by do 2 right.
    + intros [(c & Hc & Hname & Hd)|(c & Hc & Hname & Hlt & Hwhy)];
        exists c; (split; [done|]); (split; [done|]); rewrite Hname.
      * by left.
      * right. destruct Hwhy as [Hno|[(k & Hk & Hdnp)|Hon]].
        -- by left.
        -- right. left. split; [done|]. by rewrite Hk, <- Hdnp.
        -- by do 2 right.
  - apply carried_forward.
Qed.

Lemma contacts_for_date_selection_witness :
  (exists c, c ∈ contacts store_with_bob /\ contacts_name c = "Bob")
  /\ (forall c, c ∈ contacts store_with_bob -> contacts_name c = "Bob" ->
                contacts_date c = "2024-03-05")
  /\ ~ called (calls store_with_bob) "Bob"
  /\ Text.lt "2024-03-05" "2024-03-06" /\ Text.lt "2024-03-06" "2024-03-07"
  /\ "Bob" ∈ cr_name <$> get_contacts_for_date "2024-03-06" store_with_bob
  /\ forall i st',
       database.add_call "Bob" "A" "2024-03-06" "2024-03-06 10:00:00"
         store_with_bob = inr (i, st') ->
       ("Bob" ∈ cr_name <$> get_contacts_for_date "2024-03-07" st' <-> "A" = "DNP").
Proof.
  assert (exists c, c ∈ contacts store_with_bob /\ contacts_name c = "Bob") as H1.
  { eexists. split; [left|reflexivity]. }
  assert (forall c, c ∈ contacts store_with_bob -> contacts_name c = "Bob" ->
                    contacts_date c = "2024-03-05") as H2.
  { intros c Hc _. vm_compute (contacts store_with_bob) in Hc.
    by apply list_elem_of_singleton in Hc as ->. }
  assert (~ called (calls store_with_bob) "Bob") as H3.
  { intros Hex. vm_compute (calls store_with_bob) in Hex. by apply Exists_nil in Hex. }
  assert (Text.lt "2024-03-05" "2024-03-06") as H4 by reflexivity.
  assert (Text.lt "2024-03-06" "2024-03-07") as H5 by reflexivity.
  do 5 (split; [assumption|]).
  exact (proj2 (proj2 (proj2 contacts_for_date_selection))
           store_with_bob "Bob" "2024-03-05" "2024-03-06" "2024-03-07" "A"
           "2024-03-06 10:00:00" H1 H2 H3 H4 H5).
Defined.

Lemma get_contacts_for_date_sorted (d : string) (st : Store) :
  StronglySorted (called_first st d) (get_contacts_for_date d st).
Proof.
  rewrite get_contacts_for_date_rows.
  apply (StronglySorted_fmap fst
           (fun p1 p2 : ContactRow * string => called_first st d p1.1 p2.1)).
  { done. }
  eapply StronglySorted_impl_elem;
    [|apply (order_by_sorted contact_row_order)].
  intros [r1 m1] [r2 m2] H1%elem_of_order_by H2%elem_of_order_by.
  apply contact_rows_spec in H1 as (_ & _ & _ & _ & _ & -> & _).
  apply contact_rows_spec in H2 as (_ & _ & _ & _ & _ & -> & _).
  done.
Qed.

(** C4: the list of a date has no two rows with the same name, and a row
    for every selected name; the added date of a row is the latest date
    among the matching contact rows of its name, its call flag is set
    exactly when the name has a call dated that day, and the rows come with
    the called names first and, among rows with the same flag, in the order
    of the earliest created_at of their matching contact rows. *)
Theorem contacts_for_date_rows (d : string) (st : Store) :
  let rows := get_contacts_for_date d st in
  NoDup (cr_name <$> rows)
  /\ (forall n, matching st d n <> [] -> exists r, r ∈ rows /\ cr_name r = n)
  /\ (forall r, r ∈ rows ->
        matching st d (cr_name r) <> []
        /\ cr_id r ∈ contacts_id <$> matching st d (cr_name r)
        /\ cr_added_date r ∈ contacts_date <$> matching st d (cr_name r)
        /\ (forall c, c ∈ matching st d (cr_name r) ->
              Text.le (contacts_date c) (cr_added_date r))
        /\ (cr_has_call_today r = true <-> called_on (calls st) (cr_name r) d)
        /\ first_registered st d (cr_name r)
             ∈ contacts_created_at <$> matching st d (cr_name r)
        /\ (forall c, c ∈ matching st d (cr_name r) ->
              Text.le (first_registered st d (cr_name r)) (contacts_created_at c)))
  /\ StronglySorted (called_first st d) rows.
Proof.
  intros rows. subst rows. split; [|split; [|split]].
  - rewrite get_contacts_for_date_names_perm. apply NoDup_remove_dups.
  - intros n Hn. destruct (matching st d n) as [|c g] eqn:E; [done|].
    assert (c ∈ matching st d n) as Hc by (rewrite E; left).
    apply list_elem_of_filter in Hc as [[Hname Hshown] Hc].
    assert (n ∈ cr_name <$> get_contacts_for_date d st) as Hin.
    { apply get_contacts_for_date_names. eauto. }
    apply list_elem_of_fmap in Hin as (r & -> & Hr). eauto.
  - intros r [m Hr]%elem_of_get_contacts_for_date.
    apply contact_rows_spec in Hr
      as (Hne & Hid & Hdate & Hmax & Hflag & -> & Hmin1 & Hmin2).
    repeat (split; [done|]). split; [|done].
    rewrite Hflag. apply bool_decide_eq_true.
  - apply get_contacts_for_date_sorted.
Qed.

Lemma contacts_for_date_rows_witness :
  let r := {| cr_id := 2; cr_name := "Al"; cr_added_date := "2024-03-05";
              cr_has_call_today := true |} in
  r ∈ get_contacts_for_date "2024-03-05" store_bob_al
  /\ (cr_has_call_today r = true
      <-> called_on (calls store_bob_al) (cr_name r) "2024-03-05").
Proof.
  intros r.
  assert (r ∈ get_contacts_for_date "2024-03-05" store_bob_al) as Hr.
  { vm_compute. left. }
  split; [exact Hr|].
  destruct (proj1 (proj2 (proj2 (contacts_for_date_rows "2024-03-05" store_bob_al)))
              r Hr) as (_ & _ & _ & _ & Hflag & _).
  exact Hflag.
Defined.

(** ** The contact summary engine *)

Lemma get_all_contacts_summary_rows (st : Store) :
  get_all_contacts_summary None st
  = summary_item <$> order_by summary_order (summary_rows st).
Proof. reflexivity. Qed.

Lemma item_row_summary_item (rows : list SummaryRow) :
  item_row <$> (summary_item <$> rows) = rows.
Proof. induction rows as [|r rows IH]; [done|]. rewrite !fmap_cons. by f_equal. Qed.

Lemma summary_rows_names (st : Store) :
  sr_name <$> summary_rows st ≡ₚ remove_dups (contacts_name <$> contacts st).
Proof.
  trans (remove_dups (contacts_name <$> contacts_index st)).
  - apply eq_subrelation; [apply _|].
    unfold summary_rows. rewrite <- group_by_keys.
    pose proof (group_by_nonempty contacts_name (contacts_index st)) as Hne.
    induction (group_by contacts_name _) as [|[n g] gs IH]; [done|].
    destruct (Hne n g) as (c & rest & ->); [left|]. simpl.
    unfold summary_group_row at 1. simpl. f_equal.
    apply IH. intros k g' Hin. apply (Hne k g'). by right.
  - apply NoDup_Permutation; [apply NoDup_remove_dups..|].
    intros n. by rewrite !elem_of_remove_dups, contacts_index_perm.
Qed.

Lemma summary_rows_spec (st : Store) (r : SummaryRow) :
  r ∈ summary_rows st ->
  sr_latest_response r = calls_response <$> latest_call (calls st) (sr_name r)
  /\ sr_last_called_date r = calls_date <$> latest_call (calls st) (sr_name r)
  /\ sr_dnp_count r = dnp_count (calls st) (sr_name r)
  /\ exists c, c ∈ contacts st /\ contacts_name c = sr_name r
               /\ sr_id r = contacts_id c /\ sr_added_date r = contacts_date c.
Proof.
  unfold summary_rows. rewrite list_elem_of_omap. intros ([n g] & Hg & Hrow).
  apply elem_of_group_by in Hg as [_ Hg]. unfold summary_group_row in Hrow.
  simpl in Hrow. destruct g as [|c rest]; [done|]. injection Hrow as <-. simpl.
  rewrite latest_row_latest_call. repeat (split; [done|]).
  assert (c ∈ filter (fun x => contacts_name x = n) (contacts_index st)) as Hc
    by (rewrite <- Hg; left).
  apply list_elem_of_filter in Hc as [Hname Hc].
  apply elem_of_contacts_index in Hc. eauto.
Qed.

Lemma summary_order_listing (st : Store) (r1 r2 : SummaryRow) :
  r1 ∈ summary_rows st -> r2 ∈ summary_rows st ->
  summary_order r1 r2 -> listing_order r1 r2.
Proof.
  intros (Hr1 & Hd1 & _)%summary_rows_spec (Hr2 & Hd2 & _)%summary_rows_spec.
  unfold summary_order, listing_order, null_flag. rewrite Hr1, Hr2, Hd1, Hd2.
  destruct (latest_call (calls st) (sr_name r1)) as [k1|],
    (latest_call (calls st) (sr_name r2)) as [k2|]; simpl.
  - intros [?|[_ [?|[[= ->] ?]]]]; [lia|by left|by right].
  - done.
  - intros [?|[? _]]; lia.
  - intros [?|[_ [[]|[_ ?]]]]; [lia|done].
Qed.

Lemma get_all_contacts_summary_sorted (st : Store) :
  StronglySorted listing_order (item_row <$> get_all_contacts_summary None st).
Proof.
  rewrite get_all_contacts_summary_rows, item_row_summary_item.
  eapply StronglySorted_impl_elem; [|apply (order_by_sorted summary_order)].
  intros r1 r2 H1%elem_of_order_by H2%elem_of_order_by.
  by apply (summary_order_listing st).
Qed.

Lemma elem_of_get_all_contacts_summary (st : Store) (i : SummaryItem) :
  i ∈ get_all_contacts_summary None st
  <-> item_row i ∈ summary_rows st /\ i = summary_item (item_row i).
Proof.
  rewrite get_all_contacts_summary_rows, list_elem_of_fmap. split.
  - intros (r & -> & Hr%elem_of_order_by). done.
  - intros [Hr Hi]. exists (item_row i). split; [done|]. by apply elem_of_order_by.
Qed.

Lemma display_DNP (r : SummaryRow) :
  display_response (summary_item r) ∈ ["DNP"] <-> sr_latest_response r = Some R_DNP.
Proof.
  rewrite list_elem_of_singleton. simpl.
  destruct (sr_latest_response r) as [[]|]; simpl; split; congruence.
Qed.

(** C3: the summary has one row per distinct contact name; the latest
    response and last-called date of a row are those of the latest call of
    its name (none when the name was never called), where the latest call
    is one that no call of the name follows in (date, created_at) order,
    the first inserted of them when several share the latest date and
    created_at; the DNP count is the number of all DNP calls of the name; the rows list the
    attempted contacts first, by last-called date from the latest on and
    then by name, and the others after them by name; and with the filter
    ["DNP"] the result is the sub-list of the rows whose latest response is
    DNP, each row as it is in the full summary. *)
Theorem all_contacts_summary (st : Store) :
  let items := get_all_contacts_summary None st in
  NoDup ((fun i => sr_name (item_row i)) <$> items)
  /\ (forall n, n ∈ (fun i => sr_name (item_row i)) <$> items
                <-> n ∈ contacts_name <$> contacts st)
  /\ (forall i, i ∈ items ->
        let n := sr_name (item_row i) in
        sr_latest_response (item_row i)
          = calls_response <$> latest_call (calls st) n
        /\ sr_last_called_date (item_row i)
           = calls_date <$> latest_call (calls st) n
        /\ sr_dnp_count (item_row i)
           = COUNT (filter (fun k => calls_name k = n /\ calls_response k = R_DNP)
                           (calls st))
        /\ display_response i
           = match latest_call (calls st) n with
             | None => "UN"
             | Some k => response_str (calls_response k)
             end)
  /\ (forall n k,
        latest_call (calls st) n = Some k ->
        k ∈ calls st /\ calls_name k = n
        /\ (forall k', k' ∈ calls st -> calls_name k' = n -> not_later k' k)
        /\ exists before after,
             calls st = before ++ k :: after
             /\ forall k', k' ∈ before -> calls_name k' = n -> ~ not_later k k')
  /\ (forall n, latest_call (calls st) n = None <-> ~ called (calls st) n)
  /\ StronglySorted listing_order (item_row <$> items)
  /\ (forall i, i ∈ get_all_contacts_summary (Some ["DNP"]) st
                <-> i ∈ items /\ sr_latest_response (item_row i) = Some R_DNP)
  /\ get_all_contacts_summary (Some ["DNP"]) st `sublist_of` items.
Proof.
  intros items. subst items.
  assert ((fun i => sr_name (item_row i)) <$> get_all_contacts_summary None st
          ≡ₚ remove_dups (contacts_name <$> contacts st)) as Hnames.
  { rewrite get_all_contacts_summary_rows, <- summary_rows_names.
    rewrite (list_fmap_compose item_row sr_name), item_row_summary_item.
    apply fmap_Permutation, order_by_perm. }
  split; [|split; [|split; [|split; [|split; [|split; [|split]]]]]].
  - rewrite Hnames. apply NoDup_remove_dups.
  - intros n. by rewrite Hnames, elem_of_remove_dups.
  - intros i [Hr Hi]%elem_of_get_all_contacts_summary n. subst n.
    apply summary_rows_spec in Hr as (Hresp & Hdate & Hdnp & _).
    repeat (split; [done|]). rewrite Hi. simpl. rewrite Hresp.
    by destruct (latest_call _ _).
  - intros n k. apply latest_call_Some.
  - intros n. apply latest_call_None.
  - apply get_all_contacts_summary_sorted.
  - intros i. unfold get_all_contacts_summary at 1.
    fold (get_all_contacts_summary None st). rewrite list_elem_of_filter.
    split.
    + intros [Hd Hi]. split; [done|].
      apply elem_of_get_all_contacts_summary in Hi as [_ Hi].
      rewrite Hi in Hd. by apply display_DNP.
    + intros [Hi Hd]. split; [|done].
      apply elem_of_get_all_contacts_summary in Hi as [_ ->]. by apply display_DNP.
  - apply sublist_filter.
Qed.

Lemma all_contacts_summary_witness :
  let i := {| item_row :=
                {| sr_id := 2; sr_name := "Al"; sr_added_date := "2024-03-05";
                   sr_latest_response := Some R_DNP;
                   sr_last_called_date := Some "2024-03-05";
                   sr_dnp_count := 1 |};
              display_response := "DNP" |} in
  i ∈ get_all_contacts_summary None store_bob_al
  /\ sr_dnp_count (item_row i)
     = COUNT (filter (fun k => calls_name k = "Al" /\ calls_response k = R_DNP)
                     (calls store_bob_al))
  /\ i ∈ get_all_contacts_summary (Some ["DNP"]) store_bob_al.
Proof.
  intros i.
  assert (i ∈ get_all_contacts_summary None store_bob_al) as Hi.
  { vm_compute. left. }
  pose proof (all_contacts_summary store_bob_al)
    as (_ & _ & Hrow & _ & _ & _ & Hfilter & _).
  split; [exact Hi|]. split.
  - exact (proj1 (proj2 (proj2 (Hrow i Hi)))).
  - apply Hfilter. split; [exact Hi|reflexivity].
Defined.

(** ** Requests as sequences of database statements *)

Lemma batch_db_steps `{PyStr} (env : app.Env) (names : list string) (b : app.Batch) :
  rtc db_step (app.batch_store b)
      (app.batch_store (foldl (app.batch_step env) b names)).
Proof.
  revert b. induction names as [|name names IH]; intros b; [done|].
  simpl. etrans; [|apply IH]. unfold app.batch_step. case_decide; [done|].
  destruct (database.add_contact _ _ _ _ _) as [e|[i st']] eqn:E; [done|].
  simpl. apply rtc_once. by eapply db_add_contact.
Qed.

Lemma handle_db_steps `{PyStr} (env : app.Env) (req : app.Request) (st : Store) :
  rtc db_step st (app.handle env req st).2.
Proof.
  destruct req as [target date|name response date|call_id date
                  |call_id response date|name date|contact_id|name|names];
    cbn [app.handle].
  - unfold app.set_target, app.bound. repeat case_decide; try done.
    apply rtc_once, db_set_target. lia.
  - unfold app.add_call. repeat case_decide; try done.
    destruct (database.add_call _ _ _ _ _) as [e|[i st']] eqn:E; [done|].
    apply rtc_once. by eapply db_add_call.
  - unfold app.delete_call, app.bound. destruct call_id as [i|]; [|done].
    repeat case_decide; try done.
    pose proof (db_delete_call i st) as Hstep.
    destruct (database.delete_call i st) as [[] st']; by apply rtc_once.
  - unfold app.update_call, app.bound. destruct call_id as [i|]; [|done].
    repeat case_decide; try done.
    destruct (database.update_call _ _ _) as [e|[[] st']] eqn:E; [done|..];
      apply rtc_once; by eapply db_update_call.
  - unfold app.add_contact. case_decide; [done|].
    destruct (database.add_contact _ _ _ _ _) as [[msg|msg]|[i st']] eqn:E;
      [done..|].
    apply rtc_once. by eapply db_add_contact.
  - unfold app.delete_contact, app.bound. destruct contact_id as [i|]; [|done].
    repeat case_decide; try done.
    pose proof (db_delete_contact i st) as Hstep.
    destruct (database.delete_contact i st) as [[] st']; by apply rtc_once.
  - unfold app.add_to_today. case_decide; [done|].
    destruct (database.add_contact _ _ _ _ _) as [[msg|msg]|[i st']] eqn:E;
      [done..|].
    apply rtc_once. by eapply db_add_contact.
  - unfold app.add_multiple_to_today. destruct names as [[|name names]|]; [done| |done].
    apply (batch_db_steps env (name :: names) (batch_init st)).
Qed.

Lemma steps_db_steps `{PyStr} (st st' : Store) :
  rtc app.step st st' -> rtc db_step st st'.
Proof.
  induction 1 as [st|st st1 st2 Hstep _ IH]; [done|].
  destruct Hstep as [env req st]. etrans; [apply handle_db_steps|done].
Qed.

(** An invariant of the database statements holds along every sequence of
    requests. *)
Lemma steps_invariant `{PyStr} (P : Store -> Prop) (st st' : Store) :
  (forall s s', db_step s s' -> P s -> P s') ->
  rtc app.step st st' -> P st -> P st'.
Proof.
  intros Hstep Hsteps%steps_db_steps. induction Hsteps; eauto.
Qed.

(** ** What the database statements do to the store *)

Lemma add_call_inv (name response d now : string) (st st' : Store) (i : Z) :
  database.add_call name response d now st = inr (i, st') ->
  exists r, check_response response = Some r
    /\ i = (calls_seq st + 1)%Z
    /\ daily_targets st' = daily_targets st
    /\ calls st' = calls st ++
         [ {| calls_id := calls_seq st + 1; calls_name := name; calls_response := r;
              calls_date := d; calls_created_at := now |} ]
    /\ calls_seq st' = (calls_seq st + 1)%Z
    /\ contacts st' = contacts st /\ contacts_seq st' = contacts_seq st.
Proof.
  unfold database.add_call. destruct (check_response response) as [r|]; [|done].
  intros [= <- <-]. by exists r.
Qed.

Lemma add_contact_inv (name d : string) (skip : bool) (now : string)
    (st st' : Store) (i : Z) :
  database.add_contact name d skip now st = inr (i, st') ->
  ~ Exists (fun c => contacts_name c = name /\ contacts_date c = d) (contacts st)
  /\ (skip = false ->
      ~ Exists (fun c => LOWER (contacts_name c) = LOWER name) (contacts st))
  /\ i = (contacts_seq st + 1)%Z
  /\ daily_targets st' = daily_targets st
  /\ calls st' = calls st /\ calls_seq st' = calls_seq st
  /\ contacts st' = contacts st ++
       [ {| contacts_id := contacts_seq st + 1; contacts_name := name;
            contacts_date := d; contacts_created_at := now |} ]
  /\ contacts_seq st' = (contacts_seq st + 1)%Z.
Proof.
  unfold database.add_contact, contact_exists_for_date, contact_exists_anywhere.
  case_bool_decide as Hdate; [done|].
  destruct skip; simpl.
  - intros [= <- <-]. by repeat split.
  - case_bool_decide as Hany; [done|]. intros [= <- <-]. by repeat split.
Qed.

Lemma update_call_inv (i : Z) (response : string) (st st' : Store) (b : bool) :
  database.update_call i response st = inr (b, st') ->
  daily_targets st' = daily_targets st
  /\ calls_seq st' = calls_seq st
  /\ contacts st' = contacts st /\ contacts_seq st' = contacts_seq st
  /\ b = bool_decide (Exists (fun k => calls_id k = i) (calls st))
  /\ ((b = false /\ calls st' = calls st)
      \/ exists r, check_response response = Some r
           /\ calls st' =
              (fun k => if decide (calls_id k = i)
                        then {| calls_id := calls_id k; calls_name := calls_name k;
                                calls_response := r; calls_date := calls_date k;
                                calls_created_at := calls_created_at k |}
                        else k) <$> calls st).
Proof.
  unfold database.update_call. case_bool_decide as Hex.
  - destruct (check_response response) as [r|]; [|done].
    intros [= <- <-]. simpl. repeat (split; [done|]). right. by exists r.
  - intros [= <- <-]. repeat (split; [done|]). by left.
Qed.

Lemma NoDup_fmap_filter {A B} (f : A -> B) (P : A -> Prop)
    `{forall x, Decision (P x)} (l : list A) :
  NoDup (f <$> l) -> NoDup (f <$> filter P l).
Proof.
  intros Hl. eapply sublist_NoDup; [done|]. apply fmap_sublist, sublist_filter.
Qed.

Lemma Forall_filter_keep {A} (P Q : A -> Prop) `{forall x, Decision (Q x)}
    (l : list A) :
  Forall P l -> Forall P (filter Q l).
Proof.
  rewrite !Forall_forall. intros Hl x [_ Hx]%list_elem_of_filter. by apply Hl.
Qed.

(** ** Invariants of the store *)

Lemma db_step_targets (s s' : Store) :
  db_step s s' -> targets_positive s -> targets_positive s'.
Proof.
  unfold targets_positive.
  destruct 1 as [target d st Hpos|name response d now st i st' _ Hadd|i st
                |i response st b st' _ Hupd|name d skip now st i st' Hadd|i st];
    intros Hinv d' t'; simpl.
  - destruct (decide (d = d')) as [->|Hne].
    + rewrite lookup_insert_eq. by intros [= <-].
    + rewrite lookup_insert_ne by done. apply Hinv.
  - apply add_call_inv in Hadd as (_ & _ & _ & -> & _). apply Hinv.
  - apply Hinv.
  - apply update_call_inv in Hupd as (-> & _). apply Hinv.
  - apply add_contact_inv in Hadd as (_ & _ & _ & -> & _). apply Hinv.
  - apply Hinv.
Qed.

(** X2: along any sequence of requests, a store whose targets are all at
    least 1 keeps that property: the only write to [daily_targets] is
    behind the check of [set_target]. *)
Theorem targets_stay_positive `{PyStr} (st st' : Store) :
  rtc app.step st st' -> targets_positive st -> targets_positive st'.
Proof. apply (steps_invariant targets_positive), db_step_targets. Qed.

Lemma targets_stay_positive_witness :
  let st' := (app.handle env_0305 (app.SetTarget (Some 5%Z) None) empty_store).2 in
  rtc app.step empty_store st' /\ targets_positive empty_store
  /\ targets_positive st'.
Proof.
  intros st'.
  assert (rtc app.step empty_store st') as Hsteps.
  { apply rtc_once. apply (app.step_handle env_0305). }
  assert (targets_positive empty_store) as Hinit by (intros d t; done).
  split; [exact Hsteps|]. split; [exact Hinit|].
  exact (targets_stay_positive empty_store st' Hsteps Hinit).
Defined.

Lemma db_step_ids (s s' : Store) :
  db_step s s' -> ids_ok s ->
  ids_ok s'
  /\ (calls_seq s <= calls_seq s')%Z /\ (contacts_seq s <= contacts_seq s')%Z
  /\ (forall k, k ∈ calls s' ->
        calls_id k ∈ calls_id <$> calls s \/ (calls_seq s < calls_id k)%Z)
  /\ (forall c, c ∈ contacts s' ->
        contacts_id c ∈ contacts_id <$> contacts s
        \/ (contacts_seq s < contacts_id c)%Z).
Proof.
  unfold ids_ok.
  destruct 1 as [target d st Hpos|name response d now st i st' _ Hadd|i st
                |i response st b st' _ Hupd|name d skip now st i st' Hadd|i st];
    intros (Hk1 & Hk2 & Hc1 & Hc2); simpl.
  - repeat split; try done; try lia; intros x Hx; left; by apply list_elem_of_fmap_2.
  - apply add_call_inv in Hadd as (r & _ & _ & _ & -> & -> & -> & ->).
    rewrite fmap_app, Forall_app, NoDup_app. simpl. repeat split; try done; try lia.
    + intros x Hx ->%list_elem_of_singleton.
      apply list_elem_of_fmap in Hx as (k & Hid & Hk).
      rewrite Forall_forall in Hk2. apply Hk2 in Hk. lia.
    + apply NoDup_singleton.
    + eapply Forall_impl; [done|]. simpl. intros k ?. lia.
    + apply Forall_singleton. simpl. lia.
    + intros k [Hk| ->%list_elem_of_singleton]%elem_of_app.
      * left. by apply list_elem_of_fmap_2.
      * right. simpl. lia.
    + intros c Hc. left. by apply list_elem_of_fmap_2.
  - repeat split; try done; try lia.
    + by apply NoDup_fmap_filter.
    + by apply Forall_filter_keep.
    + intros k [_ Hk]%list_elem_of_filter. left. by apply list_elem_of_fmap_2.
    + intros c Hc. left. by apply list_elem_of_fmap_2.
  - apply update_call_inv in Hupd as (_ & -> & -> & -> & _ & Hcalls).
    assert (calls_id <$> calls st' = calls_id <$> calls st) as Hids.
    { destruct Hcalls as [[_ ->]|(r & _ & ->)]; [done|].
      rewrite <- list_fmap_compose. apply list_fmap_ext. intros _ k _. simpl.
      by case_decide. }
    rewrite Hids. repeat split; try done; try lia.
    + destruct Hcalls as [[_ ->]|(r & _ & ->)]; [done|].
      rewrite Forall_fmap. eapply Forall_impl; [done|]. intros k ?. simpl.
      by case_decide.
    + intros k Hk. left. rewrite <- Hids. by apply list_elem_of_fmap_2.
    + intros c Hc. left. by apply list_elem_of_fmap_2.
  - apply add_contact_inv in Hadd as (_ & _ & _ & _ & -> & -> & -> & ->).
    rewrite fmap_app, Forall_app, NoDup_app. simpl. repeat split; try done; try lia.
    + intros x Hx ->%list_elem_of_singleton.
      apply list_elem_of_fmap in Hx as (c & Hid & Hc).
      rewrite Forall_forall in Hc2. apply Hc2 in Hc. lia.
    + apply NoDup_singleton.
    + eapply Forall_impl; [done|]. simpl. intros c ?. lia.
    + apply Forall_singleton. simpl. lia.
    + intros k Hk. left. by apply list_elem_of_fmap_2.
    + intros c [Hc| ->%list_elem_of_singleton]%elem_of_app.
      * left. by apply list_elem_of_fmap_2.
      * right. simpl. lia.
  - repeat split; try done; try lia.
    + by apply NoDup_fmap_filter.
    + by apply Forall_filter_keep.
    + intros k Hk. left. by apply list_elem_of_fmap_2.
    + intros c [_ Hc]%list_elem_of_filter. left. by apply list_elem_of_fmap_2.
Qed.

(** X3: along any sequence of requests the ids of the calls and of the
    contacts stay distinct and at most the table's counter, the counters
    never go down, and every id in the tables at the end was in the table
    at the start or is above the counter of the start: an id that has been
    deleted is not given out again. *)
Theorem ids_never_reused `{PyStr} (st st' : Store) :
  rtc app.step st st' -> ids_ok st ->
  ids_ok st'
  /\ (calls_seq st <= calls_seq st')%Z /\ (contacts_seq st <= contacts_seq st')%Z
  /\ (forall k, k ∈ calls st' ->
        calls_id k ∈ calls_id <$> calls st \/ (calls_seq st < calls_id k)%Z)
  /\ (forall c, c ∈ contacts st' ->
        contacts_id c ∈ contacts_id <$> contacts st
        \/ (contacts_seq st < contacts_id c)%Z).
Proof.
  intros Hsteps Hok.
  apply (steps_invariant
           (fun s => ids_ok s
              /\ (calls_seq st <= calls_seq s)%Z
              /\ (contacts_seq st <= contacts_seq s)%Z
              /\ (forall k, k ∈ calls s ->
                    calls_id k ∈ calls_id <$> calls st
                    \/ (calls_seq st < calls_id k)%Z)
              /\ (forall c, c ∈ contacts s ->
                    contacts_id c ∈ contacts_id <$> contacts st
                    \/ (contacts_seq st < contacts_id c)%Z)) st st');
    [|done|].
  - intros s s' Hstep (Hs & Hseq1 & Hseq2 & Hold1 & Hold2).
    destruct (db_step_ids s s' Hstep Hs) as (Hs' & Hle1 & Hle2 & Hnew1 & Hnew2).
    split; [done|]. split; [lia|]. split; [lia|]. split.
    + intros k Hk. destruct (Hnew1 k Hk) as [Hin|Hgt]; [|right; lia].
      apply list_elem_of_fmap in Hin as (k0 & -> & Hk0). by apply Hold1.
    + intros c Hc. destruct (Hnew2 c Hc) as [Hin|Hgt]; [|right; lia].
      apply list_elem_of_fmap in Hin as (c0 & -> & Hc0). by apply Hold2.
  - split; [done|]. split; [lia|]. split; [lia|].
    split; intros x Hx; left; by apply list_elem_of_fmap_2.
Qed.

Lemma ids_never_reused_witness :
  let st' := (app.handle env_0305 (app.DeleteContact (Some 1%Z)) store_bob_al).2 in
  rtc app.step store_bob_al st' /\ ids_ok store_bob_al
  /\ ids_ok st' /\ (contacts_seq store_bob_al <= contacts_seq st')%Z.
Proof.
  intros st'.
  assert (rtc app.step store_bob_al st') as Hsteps.
  { apply rtc_once. apply (app.step_handle env_0305). }
  assert (ids_ok store_bob_al) as Hok.
  { unfold ids_ok. vm_compute calls. vm_compute contacts.
    repeat split; apply (bool_decide_unpack _); by vm_compute. }
  split; [exact Hsteps|]. split; [exact Hok|].
  destruct (ids_never_reused store_bob_al st' Hsteps Hok) as (H1 & _ & H2 & _).
  split; [exact H1|exact H2].
Defined.

Lemma db_step_contacts_unique (s s' : Store) :
  db_step s s' -> contacts_unique s -> contacts_unique s'.
Proof.
  unfold contacts_unique.
  destruct 1 as [target d st Hpos|name response d now st i st' _ Hadd|i st
                |i response st b st' _ Hupd|name d skip now st i st' Hadd|i st];
    intros Hinv; simpl; try done.
  - by apply add_call_inv in Hadd as (_ & _ & _ & _ & _ & _ & -> & _).
  - by apply update_call_inv in Hupd as (_ & _ & -> & _).
  - apply add_contact_inv in Hadd as (Hnew & _ & _ & _ & _ & _ & -> & _).
    rewrite fmap_app, NoDup_app. simpl. split; [done|]. split; [|apply NoDup_singleton].
    intros x Hx ->%list_elem_of_singleton.
    apply list_elem_of_fmap in Hx as (c & [= Hn Hd] & Hc).
    apply Hnew, Exists_exists. eauto.
  - by apply NoDup_fmap_filter.
Qed.

(** X4: along any sequence of requests no two contact rows have the same
    name and date: [add_contact] inserts only after its per-date check, so
    the table's UNIQUE(name, date) constraint is never what stops it. *)
Theorem contacts_stay_unique `{PyStr} (st st' : Store) :
  rtc app.step st st' -> contacts_unique st -> contacts_unique st'.
Proof. apply (steps_invariant contacts_unique), db_step_contacts_unique. Qed.

Lemma contacts_stay_unique_witness :
  let st' := (app.handle env_0305 (app.AddToToday (Some "Bob")) store_bob_al).2 in
  rtc app.step store_bob_al st' /\ contacts_unique store_bob_al
  /\ contacts_unique st'.
Proof.
  intros st'.
  assert (rtc app.step store_bob_al st') as Hsteps.
  { apply rtc_once. apply (app.step_handle env_0305). }
  assert (contacts_unique store_bob_al) as Hok.
  { unfold contacts_unique. vm_compute contacts.
    apply (bool_decide_unpack _). by vm_compute. }
  split; [exact Hsteps|]. split; [exact Hok|].
  exact (contacts_stay_unique store_bob_al st' Hsteps Hok).
Defined.

(** ** What the handlers never do *)

Lemma add_contact_outcome (name d : string) (skip : bool) (now : string) (st : Store) :
  (exists msg, database.add_contact name d skip now st = inl (ValueError msg))
  \/ (exists i st', database.add_contact name d skip now st = inr (i, st')).
Proof.
  unfold database.add_contact, contact_exists_for_date.
  case_bool_decide; [left; by eexists|].
  destruct (negb skip && contact_exists_anywhere name st); [left; by eexists|].
  right. by do 2 eexists.
Qed.



(** ** Targets *)



(** ** Calls and the statistics *)

Lemma stats_of_calls (d : string) (st1 st2 : Store) :
  calls st1 = calls st2 -> get_today_stats d st1 = get_today_stats d st2.
Proof. unfold get_today_stats. by intros ->. Qed.

Lemma stats_total (d : string) (st : Store) :
  get_today_stats d st !!! "total"
  = COUNT (filter (fun k => calls_date k = d) (calls st)).
Proof. by rewrite get_today_stats_dict. Qed.

Lemma stats_response (d : string) (st : Store) (r : Response) :
  get_today_stats d st !! response_str r = Some (calls_with st d r).
Proof.
  rewrite get_today_stats_dict.
  assert (forall r', COUNT (filter (fun x => calls_response x = r')
                              (filter (fun k => calls_date k = d) (calls st)))
                     = calls_with st d r') as Hn.
  { intros r'. unfold calls_with. rewrite list_filter_filter.
    do 2 f_equal. apply filter_ext_elem. tauto. }
  rewrite !Hn. by destruct r.
Qed.

(** X6: a call that has just been added is deleted by its id, after which
    the calls, and with them the statistics of every date, are what they
    were before the call was added; deleting the id a second time finds
    nothing. *)
Theorem delete_added_call (name response d now : string) (st st' : Store) (i : Z) :
  Forall (fun k => (calls_id k <= calls_seq st)%Z) (calls st) ->
  database.add_call name response d now st = inr (i, st') ->
  (database.delete_call i st').1 = true
  /\ calls (database.delete_call i st').2 = calls st
  /\ (forall d', get_today_stats d' (database.delete_call i st').2
                 = get_today_stats d' st)
  /\ (database.delete_call i (database.delete_call i st').2).1 = false.
Proof.
  intros Hids (r & _ & -> & _ & Hcalls & _)%add_call_inv.
  assert (calls (database.delete_call (calls_seq st + 1) st').2 = calls st) as Hback.
  { simpl. rewrite Hcalls, filter_app.
    rewrite (filter_singleton_False _ _ []) by (simpl; intros Hne; by apply Hne).
    rewrite app_nil_r. apply filter_all.
    eapply Forall_impl; [done|]. simpl. intros k ?. lia. }
  split; [|split; [done|split]].
  - simpl. apply bool_decide_eq_true. rewrite Hcalls. apply Exists_app. right.
    by apply Exists_cons_hd.
  - intros d'. by apply stats_of_calls.
  - unfold database.delete_call at 1. cbn [fst]. rewrite Hback.
    apply bool_decide_eq_false. rewrite Exists_exists. intros (k & Hk & Hid).
    rewrite Forall_forall in Hids. apply Hids in Hk. lia.
Qed.

Lemma delete_added_call_witness :
  Forall (fun k => (calls_id k <= calls_seq store_bob_al)%Z) (calls store_bob_al)
  /\ (forall i st',
        database.add_call "Bob" "A" "2024-03-05" "2024-03-05 11:00:00"
          store_bob_al = inr (i, st') ->
        calls (database.delete_call i st').2 = calls store_bob_al).
Proof.
  assert (Forall (fun k => (calls_id k <= calls_seq store_bob_al)%Z)
                 (calls store_bob_al)) as Hids.
  { vm_compute calls. apply (bool_decide_unpack _). by vm_compute. }
  split; [exact Hids|]. intros i st' Hadd.
  exact (proj1 (proj2 (delete_added_call _ _ _ _ _ _ _ Hids Hadd))).
Defined.

(** X7: changing the response of a call keeps the rows of [calls] in
    place: the ids, names, dates and creation times are the same lists as
    before, a row with another id is untouched, and the total of every
    date is the same. *)
Theorem update_call_keeps_rows (i : Z) (response : string) (st st' : Store)
    (b : bool) :
  database.update_call i response st = inr (b, st') ->
  calls_id <$> calls st' = calls_id <$> calls st
  /\ calls_name <$> calls st' = calls_name <$> calls st
  /\ calls_date <$> calls st' = calls_date <$> calls st
  /\ calls_created_at <$> calls st' = calls_created_at <$> calls st
  /\ (forall k, k ∈ calls st -> calls_id k <> i -> k ∈ calls st')
  /\ (forall d, get_today_stats d st' !!! "total" = get_today_stats d st !!! "total")
  /\ (b = true <-> exists k, k ∈ calls st /\ calls_id k = i).
Proof.
  intros (_ & _ & _ & _ & -> & Hcalls)%update_call_inv.
  assert (b_iff : bool_decide (Exists (fun k => calls_id k = i) (calls st)) = true
                  <-> exists k, k ∈ calls st /\ calls_id k = i).
  { by rewrite bool_decide_eq_true, Exists_exists. }
  assert (exists f : Call -> Call,
            calls st' = f <$> calls st
            /\ forall k, calls_id (f k) = calls_id k
                 /\ calls_name (f k) = calls_name k
                 /\ calls_date (f k) = calls_date k
                 /\ calls_created_at (f k) = calls_created_at k
                 /\ (calls_id k <> i -> f k = k)) as (f & Hst' & Hf).
  { destruct Hcalls as [[_ ->]|(r & _ & ->)].
    - exists (fun k => k). split; [by rewrite list_fmap_id|done].
    - eexists. split; [done|]. intros k. simpl. by case_decide. }
  rewrite Hst', <- !list_fmap_compose.
  repeat split; try (apply list_fmap_ext; intros _ k _; simpl; apply Hf);
    try apply b_iff.
  - intros k Hk Hne. apply list_elem_of_fmap. exists k. split; [|done].
    symmetry. by apply Hf.
  - intros d. rewrite !stats_total, Hst'. unfold COUNT. f_equal. clear Hst' b_iff Hcalls.
    induction (calls st) as [|k l IH]; [done|].
    rewrite fmap_cons, !filter_cons.
    destruct (Hf k) as (_ & _ & -> & _).
    destruct (decide (calls_date k = d)); simpl; by rewrite IH.
Qed.

Lemma update_call_keeps_rows_witness :
  exists st',
    database.update_call 1 "A" store_bob_al = inr (true, st')
    /\ calls_id <$> calls st' = calls_id <$> calls store_bob_al.
Proof.
  eexists. split; [reflexivity|].
  refine (proj1 (update_call_keeps_rows 1 "A" store_bob_al _ true _)).
  reflexivity.
Defined.

(** X8: a call added for a date raises the total of that date and the
    entry of its response by one, and leaves the statistics of every other
    date as they were. *)
Theorem add_call_counts (name response d now : string) (st st' : Store) (i : Z) :
  database.add_call name response d now st = inr (i, st') ->
  exists r,
    check_response response = Some r
    /\ get_today_stats d st' !!! "total" = (get_today_stats d st !!! "total" + 1)%Z
    /\ get_today_stats d st' !! response_str r = Some (calls_with st d r + 1)%Z
    /\ (forall d', d' <> d -> get_today_stats d' st' = get_today_stats d' st).
Proof.
  intros (r & Hr & _ & _ & Hcalls & _)%add_call_inv. exists r. split; [done|].
  split; [|split].
  - rewrite !stats_total, Hcalls, filter_app. unfold COUNT.
    rewrite (filter_singleton_True _ _ []) by done. rewrite length_app. simpl. lia.
  - rewrite stats_response. unfold calls_with, COUNT. rewrite Hcalls, filter_app.
    rewrite (filter_singleton_True _ _ []) by done. rewrite length_app. simpl.
    f_equal. lia.
  - intros d' Hne. unfold get_today_stats. rewrite Hcalls, filter_app.
    rewrite (filter_singleton_False _ _ []) by (simpl; congruence).
    by rewrite app_nil_r.
Qed.

Lemma add_call_counts_witness :
  exists i st',
    database.add_call "Bob" "A" "2024-03-05" "2024-03-05 11:00:00" store_bob_al
      = inr (i, st')
    /\ get_today_stats "2024-03-05" st' !!! "total"
       = (get_today_stats "2024-03-05" store_bob_al !!! "total" + 1)%Z.
Proof.
  do 2 eexists. split; [reflexivity|].
  destruct (add_call_counts "Bob" "A" "2024-03-05" "2024-03-05 11:00:00"
              store_bob_al _ _ eq_refl) as (r & _ & Htotal & _).
  exact Htotal.
Defined.

(** X9: calls and contacts are tied by name only.  A request that is not a
    call request leaves [calls], and so the statistics and the call history
    of every name, as they were -- deleting a contact deletes none of its
    calls; and a call request leaves [contacts] as they were. *)
Theorem calls_and_contacts_apart `{PyStr} (env : app.Env) (req : app.Request)
    (st : Store) :
  (call_request req = false ->
     calls (app.handle env req st).2 = calls st
     /\ (forall d, get_today_stats d (app.handle env req st).2
                   = get_today_stats d st)
     /\ (forall n, get_contact_call_history n (app.handle env req st).2
                   = get_contact_call_history n st))
  /\ (call_request req = true ->
        contacts (app.handle env req st).2 = contacts st).
Proof.
  split.
  - intros Hreq.
    assert (calls (app.handle env req st).2 = calls st) as Hcalls.
    { destruct req as [target date|name response date|call_id date
                      |call_id response date|name date|contact_id|name|names];
        try done; cbn [app.handle].
      - unfold app.set_target, app.bound. by repeat case_decide.
      - unfold app.add_contact. case_decide; [done|].
        destruct (database.add_contact _ _ _ _ _) as [[msg|msg]|[i st']] eqn:E;
          [done..|].
        by apply add_contact_calls in E.
      - unfold app.delete_contact, app.bound. destruct contact_id as [i|]; [|done].
        repeat case_decide; try done. simpl. by case_bool_decide.
      - unfold app.add_to_today. case_decide; [done|].
        destruct (database.add_contact _ _ _ _ _) as [[msg|msg]|[i st']] eqn:E;
          [done..|].
        by apply add_contact_calls in E.
      - unfold app.add_multiple_to_today.
        destruct names as [[|name names]|]; [done| |done].
        apply (batch_calls env (name :: names) (batch_init st)). }
    split; [done|]. split.
    + intros d. by apply stats_of_calls.
    + intros n. unfold get_contact_call_history. by rewrite Hcalls.
  - intros Hreq.
    destruct req as [target date|name response date|call_id date
                    |call_id response date|name date|contact_id|name|names];
      try done; cbn [app.handle].
    + unfold app.add_call. repeat case_decide; try done.
      destruct (database.add_call _ _ _ _ _) as [e|[i st']] eqn:E; [done|].
      simpl. by apply add_call_inv in E as (_ & _ & _ & _ & _ & _ & -> & _).
    + unfold app.delete_call, app.bound. destruct call_id as [i|]; [|done].
      repeat case_decide; try done. simpl. by case_bool_decide.
    + unfold app.update_call, app.bound. destruct call_id as [i|]; [|done].
      repeat case_decide; try done.
      destruct (database.update_call _ _ _) as [e|[[] st']] eqn:E; [done|..];
        simpl; by apply update_call_inv in E as (_ & _ & -> & _).
Qed.

Lemma calls_and_contacts_apart_witness :
  call_request (app.DeleteContact (Some 2%Z)) = false
  /\ calls (app.handle env_0305 (app.DeleteContact (Some 2%Z)) store_bob_al).2
     = calls store_bob_al.
Proof.
  assert (call_request (app.DeleteContact (Some 2%Z)) = false) as Hreq
    by reflexivity.
  split; [exact Hreq|].
  exact (proj1 (proj1 (calls_and_contacts_apart env_0305
                         (app.DeleteContact (Some 2%Z)) store_bob_al) Hreq)).
Defined.

(** ** The listings *)

#[global] Instance newest_first_trans : Transitive newest_first.
Proof. intros k1 k2 k3. unfold newest_first. eauto with text. Qed.

#[global] Instance newest_first_total : Total newest_first.
Proof.
  intros k1 k2. unfold newest_first.
  destruct (TextFacts.le_total (calls_created_at k1) (calls_created_at k2)); auto.
Qed.

#[global] Instance by_name_trans : Transitive by_name.
Proof. intros c1 c2 c3. unfold by_name. eauto with text. Qed.

#[global] Instance by_name_total : Total by_name.
Proof. intros c1 c2. unfold by_name. apply TextFacts.le_total. Qed.

(** X10: the calls listed for a date are the rows of that date, each once,
    from the newest creation time to the oldest, and there are as many of
    them as the total of the statistics of that date. *)
Theorem today_calls_listing (d : string) (st : Store) :
  get_today_calls d st
    ≡ₚ call_row <$> filter (fun k => calls_date k = d) (calls st)
  /\ StronglySorted
       (fun r1 r2 => Text.le (cl_created_at r2) (cl_created_at r1))
       (get_today_calls d st)
  /\ Z.of_nat (length (get_today_calls d st)) = get_today_stats d st !!! "total".
Proof.
  unfold get_today_calls. split; [|split].
  - apply fmap_Permutation, order_by_perm.
  - apply (StronglySorted_fmap call_row newest_first); [done|].
    apply (order_by_sorted newest_first).
  - rewrite length_fmap, (order_by_perm newest_first), stats_total. done.
Qed.



(** X12: [get_all_contacts] lists every row of [contacts] once, with its id
    and name, in ascending order of the names. *)
Theorem all_contacts_listing (st : Store) :
  get_all_contacts st ≡ₚ contact_name_row <$> contacts st
  /\ StronglySorted (fun r1 r2 => Text.le (cn_name r1) (cn_name r2))
                    (get_all_contacts st)
  /\ length (get_all_contacts st) = length (contacts st).
Proof.
  unfold get_all_contacts. split; [|split].
  - apply fmap_Permutation. by rewrite order_by_perm, contacts_index_perm.
  - apply (StronglySorted_fmap contact_name_row by_name); [done|].
    apply (order_by_sorted by_name).
  - by rewrite length_fmap, (order_by_perm by_name), contacts_index_perm.
Qed.

(** ** Today's list *)

Lemma elem_of_added_today (today n : string) (st : Store) :
  n ∈ get_contacts_added_today today st
  <-> Exists (fun c => contacts_name c = n /\ contacts_date c = today) (contacts st).
Proof.
  unfold get_contacts_added_today.
  rewrite elem_of_list_to_set, list_elem_of_fmap, Exists_exists. split.
  - intros (c & -> & [Hd Hc]%list_elem_of_filter). eauto.
  - intros (c & Hc & <- & Hd). exists c. split; [done|].
    by apply list_elem_of_filter.
Qed.

(** After [add_contact] with the global check skipped, whatever it
    returns, the name is in the list of the date. *)
Lemma add_contact_skip_listed (n d now : string) (st : Store) :
  match database.add_contact n d true now st with
  | inl _ => n ∈ get_contacts_added_today d st
  | inr (_, st') => n ∈ get_contacts_added_today d st'
  end.
Proof.
  destruct (database.add_contact n d true now st) as [e|[i st']] eqn:E.
  - apply elem_of_added_today. apply dec_stable. intros Hnone.
    rewrite (add_contact_inserts n d true now st Hnone) in E by auto. done.
  - apply add_contact_inv in E as (_ & _ & _ & _ & _ & _ & Hc & _).
    apply elem_of_added_today. rewrite Hc. apply Exists_app. right.
    by apply Exists_cons_hd.
Qed.

(** X13: adding a name to today's list puts it among the names of
    [get_contacts_added_today], whether the contact is new or was already
    there; the answer has status 200 either way; and a second identical
    request changes nothing. *)
Theorem add_to_today_idempotent `{PyStr} (env : app.Env) (name : option string)
    (st : Store) :
  let n := strip (default "" name) in
  let st1 := (app.add_to_today env name st).2 in
  n <> "" ->
  n ∈ get_contacts_added_today (app.today env) st1
  /\ (exists body, (app.add_to_today env name st).1 = app.Reply body 200)
  /\ app.add_to_today env name st1 = (already_exists_reply n, st1).
Proof.
  intros n st1 Hn. subst st1. unfold app.add_to_today. fold n.
  rewrite !decide_False by done.
  pose proof (add_contact_skip_listed n (app.today env) (app.now env 0) st) as Hin.
  destruct (database.add_contact n (app.today env) true (app.now env 0) st)
    as [[msg|msg]|[i st']] eqn:E; simpl.
  - split; [done|]. split; [by eexists|]. by rewrite E.
  - destruct (add_contact_outcome n (app.today env) true (app.now env 0) st)
      as [[msg' E']|(i & st' & E')]; congruence.
  - split; [done|]. split; [by eexists|].
    apply elem_of_added_today in Hin.
    by rewrite (add_contact_raises_for_date n (app.today env) true _ st' Hin).
Qed.

Lemma add_to_today_idempotent_witness :
  ascii_strip " Cy " <> ""
  /\ "Cy" ∈ get_contacts_added_today "2024-03-05"
            (app.add_to_today env_0305 (Some " Cy ") store_bob_al).2.
Proof.
  assert (ascii_strip " Cy " <> "") as Hn by (vm_compute; discriminate).
  split; [exact Hn|].
  exact (proj1 (add_to_today_idempotent env_0305 (Some " Cy ") store_bob_al Hn)).
Defined.

Lemma added_today_mono (today n name d now : string) (skip : bool)
    (st st' : Store) (i : Z) :
  database.add_contact name d skip now st = inr (i, st') ->
  n ∈ get_contacts_added_today today st -> n ∈ get_contacts_added_today today st'.
Proof.
  intros (_ & _ & _ & _ & _ & _ & Hc & _)%add_contact_inv.
  rewrite !elem_of_added_today, Hc, Exists_app. auto.
Qed.

Lemma batch_step_partition `{PyStr} (env : app.Env) (b : app.Batch) (name : string) :
  let b' := app.batch_step env b name in
  app.added b' ++ app.skipped b'
    ≡ₚ (app.added b ++ app.skipped b)
       ++ filter (fun n => n <> "") [strip name]
  /\ ((forall n, n ∈ app.added b ++ app.skipped b ->
         n ∈ get_contacts_added_today (app.today env) (app.batch_store b)) ->
      forall n, n ∈ app.added b' ++ app.skipped b' ->
        n ∈ get_contacts_added_today (app.today env) (app.batch_store b')).
Proof.
  intros b'. subst b'. unfold app.batch_step.
  destruct (decide (strip name = "")) as [Hblank|Hname].
  - rewrite (filter_singleton_False _ _ []) by (by intros Hne).
    by rewrite app_nil_r.
  - rewrite (filter_singleton_True _ _ []) by done.
    pose proof (add_contact_skip_listed (strip name) (app.today env)
                  (app.now env (app.inserts b)) (app.batch_store b)) as Hin.
    destruct (database.add_contact _ _ _ _ _) as [e|[i st']] eqn:E; simpl.
    + split; [by rewrite (assoc_L (++))|].
      intros Hold n. rewrite (assoc_L (++)), elem_of_app, list_elem_of_singleton.
      intros [Hn| ->]; [by apply Hold|done].
    + split.
      { rewrite <- !(assoc_L (++)). apply Permutation_app_head, Permutation_app_comm. }
      intros Hold n. rewrite <- (assoc_L (++)), elem_of_app, elem_of_app,
        list_elem_of_singleton.
      intros [Hn|[->|Hn]]; [|done|];
        (eapply added_today_mono; [done|]); apply Hold, elem_of_app; auto.
Qed.

Lemma batch_added_NoDup `{PyStr} (env : app.Env) (names : list string)
    (b0 : app.Batch) :
  let b1 := foldl (app.batch_step env) b0 names in
  NoDup (app.added b0) ->
  (forall n, n ∈ app.added b0 ->
     n ∈ get_contacts_added_today (app.today env) (app.batch_store b0)) ->
  NoDup (app.added b1)
  /\ (forall n, n ∈ app.added b1 ->
        n ∈ get_contacts_added_today (app.today env) (app.batch_store b1)).
Proof.
  revert b0. induction names as [|name names IH]; intros b0 b1 Hdup Hin; [done|].
  subst b1. cbn [foldl]. apply IH; unfold app.batch_step;
    (case_decide; [done|]);
    destruct (database.add_contact _ _ _ _ _) as [e|[i st']] eqn:E; simpl; try done.
  - apply NoDup_app. split; [done|]. split; [|apply NoDup_singleton].
    intros n Hn ->%list_elem_of_singleton.
    apply Hin, elem_of_added_today in Hn.
    by apply add_contact_inv in E as (Hnone & _).
  - intros n [Hn| ->%list_elem_of_singleton]%elem_of_app.
    + eapply added_today_mono; [done|]. by apply Hin.
    + pose proof (add_contact_skip_listed (strip name) (app.today env)
                    (app.now env (app.inserts b0)) (app.batch_store b0)) as Hl.
      by rewrite E in Hl.
Qed.

(** X14: the batch request sorts the non-blank names it was sent, stripped,
    into [added] and [skipped]: together the two lists are those names, each
    as often as sent, so the two counts add up to their number; nothing is
    added twice; and when the request is done every one of them is in
    today's list. *)
Theorem batch_partition `{PyStr} (env : app.Env) (names : list string) (st : Store) :
  let b := foldl (app.batch_step env) (batch_init st) names in
  let sent := filter (fun n => n <> "") (strip <$> names) in
  app.added b ++ app.skipped b ≡ₚ sent
  /\ length (app.added b) + length (app.skipped b) = length sent
  /\ NoDup (app.added b)
  /\ (forall n, n ∈ sent ->
        n ∈ get_contacts_added_today (app.today env) (app.batch_store b)).
Proof.
  intros b sent.
  assert (forall names b0,
    let b1 := foldl (app.batch_step env) b0 names in
    app.added b1 ++ app.skipped b1
      ≡ₚ (app.added b0 ++ app.skipped b0)
         ++ filter (fun n => n <> "") (strip <$> names)
    /\ ((forall n, n ∈ app.added b0 ++ app.skipped b0 ->
           n ∈ get_contacts_added_today (app.today env) (app.batch_store b0)) ->
        forall n, n ∈ app.added b1 ++ app.skipped b1 ->
          n ∈ get_contacts_added_today (app.today env) (app.batch_store b1)))
    as Hfold.
  { clear. induction names as [|name names IH]; intros b0 b1; subst b1.
    - simpl. by rewrite app_nil_r.
    - cbn [foldl]. rewrite fmap_cons.
      destruct (batch_step_partition env b0 name) as [Hperm Hlisted].
      destruct (IH (app.batch_step env b0 name)) as [Hperm' Hlisted'].
      split; [|auto].
      rewrite Hperm', Hperm, <- (assoc_L (++)). apply Permutation_app_head.
      by rewrite <- filter_app. }
  destruct (Hfold names (batch_init st)) as [Hperm Hlisted]. simpl in Hperm.
  fold b sent in Hperm, Hlisted. split; [done|]. split; [|split].
  - by rewrite <- length_app, Hperm.
  - apply (batch_added_NoDup env names (batch_init st)); simpl.
    + apply NoDup_nil_2.
    + intros n Hn. by apply elem_of_nil in Hn.
  - intros n Hn. apply Hlisted; [|by rewrite Hperm].
    simpl. intros n' Hn'. by apply elem_of_nil in Hn'.
Qed.

Lemma batch_partition_witness :
  let b := foldl (app.batch_step env_0305) (batch_init store_bob_al)
                 ["Cy"; " Bob "; " "; "Cy"] in
  "Cy" ∈ filter (fun n => n <> "") (ascii_strip <$> ["Cy"; " Bob "; " "; "Cy"])
  /\ "Cy" ∈ get_contacts_added_today "2024-03-05" (app.batch_store b).
Proof.
  intros b.
  assert ("Cy" ∈ filter (fun n => n <> "")
                   (ascii_strip <$> ["Cy"; " Bob "; " "; "Cy"])) as Hsent.
  { vm_compute. left. }
  split; [exact Hsent|].
  exact (proj2 (proj2 (proj2 (batch_partition env_0305
                                ["Cy"; " Bob "; " "; "Cy"] store_bob_al)))
           "Cy" Hsent).
Defined.

(** ** Adding and deleting a contact *)

(** X19: a contact that has just been added is in the list of its date,
    and, as long as its name has no call, in the list of every later date;
    deleting it by the id that was returned gives back the contacts as
    they were. *)
Theorem added_contact_listed (n d : string) (skip : bool) (now : string)
    (st st' : Store) (i : Z) :
  Forall (fun c => (contacts_id c <= contacts_seq st)%Z) (contacts st) ->
  database.add_contact n d skip now st = inr (i, st') ->
  n ∈ cr_name <$> get_contacts_for_date d st'
  /\ (~ called (calls st) n ->
      forall d', Text.lt d d' -> n ∈ cr_name <$> get_contacts_for_date d' st')
  /\ (database.delete_contact i st').1 = true
  /\ contacts (database.delete_contact i st').2 = contacts st.
Proof.
  intros Hids (_ & _ & -> & _ & Hcalls & _ & Hcontacts & _)%add_contact_inv.
  set (new := {| contacts_id := contacts_seq st + 1; contacts_name := n;
                 contacts_date := d; contacts_created_at := now |}) in *.
  assert (new ∈ contacts st') as Hnew.
  { rewrite Hcontacts. apply elem_of_app. right. left. }
  split; [|split; [|split]].
  - apply get_contacts_for_date_names. exists new. split; [done|]. split; [done|].
    by left.
  - intros Hnone d' Hlt. apply get_contacts_for_date_names.
    exists new. split; [done|]. split; [done|]. right. left.
    by rewrite Hcalls.
  - simpl. apply bool_decide_eq_true, Exists_exists. by exists new.
  - simpl. rewrite Hcontacts, filter_app.
    rewrite (filter_singleton_False _ _ []) by (simpl; intros Hne; by apply Hne).
    rewrite app_nil_r. apply filter_all.
    eapply Forall_impl; [done|]. simpl. intros c ?. lia.
Qed.

Lemma added_contact_listed_witness :
  Forall (fun c => (contacts_id c <= contacts_seq store_bob_al)%Z)
         (contacts store_bob_al)
  /\ (forall i st',
        database.add_contact "Cy" "2024-03-06" false "2024-03-06 08:00:00"
          store_bob_al = inr (i, st') ->
        "Cy" ∈ cr_name <$> get_contacts_for_date "2024-03-06" st').
Proof.
  assert (Forall (fun c => (contacts_id c <= contacts_seq store_bob_al)%Z)
                 (contacts store_bob_al)) as Hids.
  { vm_compute contacts. apply (bool_decide_unpack _). by vm_compute. }
  split; [exact Hids|]. intros i st' Hadd.
  exact (proj1 (added_contact_listed _ _ _ _ _ _ _ Hids Hadd)).
Defined.

(** X16: the add-contact endpoint, which keeps the global check, answers
    400 and leaves the store as it was exactly when some contact, of any
    date, has the same name up to the case of the ASCII letters; otherwise
    it stores the name as it was sent, under the next id. *)
Theorem add_contact_known_name `{PyStr} (env : app.Env) (name date : option string)
    (st : Store) :
  let n := strip (default "" name) in
  let d := default (app.today env) date in
  n <> "" ->
  (Exists (fun c => LOWER (contacts_name c) = LOWER n) (contacts st) ->
     exists msg, app.add_contact env name date st
                 = (app.Reply (app.error msg) 400, st))
  /\ (~ Exists (fun c => LOWER (contacts_name c) = LOWER n) (contacts st) ->
      exists st',
        app.add_contact env name date st
        = (app.Reply
             (app.JObj [("success", app.JBool true);
                        ("contact",
                         app.JObj [("id", app.JInt (contacts_seq st + 1));
                                   ("name", app.JStr n)])])
             200,
           st')
        /\ contacts st' = contacts st ++
             [ {| contacts_id := contacts_seq st + 1; contacts_name := n;
                  contacts_date := d; contacts_created_at := app.now env 0 |} ]).
Proof.
  intros n d Hn. unfold app.add_contact. fold n d. rewrite decide_False by done.
  split.
  - intros Hknown.
    destruct (add_contact_raises_anywhere n d (app.now env 0) st Hknown)
      as [msg ->].
    by exists msg.
  - intros Hnew. rewrite (add_contact_inserts n d false (app.now env 0) st).
    + by eexists.
    + rewrite Exists_exists. intros (c & Hc & Hname & _).
      apply Hnew, Exists_exists. exists c. by rewrite Hname.
    + by right.
Qed.

Lemma add_contact_known_name_witness :
  ascii_strip "BOB" <> ""
  /\ Exists (fun c => LOWER (contacts_name c) = LOWER (ascii_strip "BOB"))
            (contacts store_bob_al)
  /\ exists msg,
       app.add_contact env_0305 (Some "BOB") (Some "2024-04-01") store_bob_al
       = (app.Reply (app.error msg) 400, store_bob_al).
Proof.
  assert (ascii_strip "BOB" <> "") as Hn by (vm_compute; discriminate).
  assert (Exists (fun c => LOWER (contacts_name c) = LOWER (ascii_strip "BOB"))
                 (contacts store_bob_al)) as Hknown.
  { apply (bool_decide_unpack _). by vm_compute. }
  split; [exact Hn|]. split; [exact Hknown|].
  exact (proj1 (add_contact_known_name env_0305 (Some "BOB") (Some "2024-04-01")
                  store_bob_al Hn) Hknown).
Defined.

(** ** Achievements and statistics *)

(** X15: the month view and the statistics count successful calls alike: a
    date of the month with a target is marked achieved exactly when the
    [successful] entry of its statistics has reached the target. *)
Theorem achievements_match_stats (year month : Z) (st : Store) (d : string) (b : bool) :
  get_month_achievements year month st !! d = Some b <->
  in_range (month_start year month) (month_end year month) d
  /\ exists t, get_daily_target d st = Some t
       /\ b = bool_decide (t <= get_today_stats d st !!! "successful")%Z.
Proof.
  rewrite get_month_achievements_lookup. unfold get_daily_target.
  assert (successful_on st d = get_today_stats d st !!! "successful") as ->.
  { rewrite stats_successful. unfold successful_on. rewrite list_filter_filter.
    do 2 f_equal. apply filter_ext_elem. tauto. }
  destruct (daily_targets st !! d) as [t|]; simpl.
  - case_decide.
    + split; [intros [= <-]; eauto|]. by intros (_ & t' & [= <-] & ->).
    + split; [done|]. by intros [? _].
  - split; [done|]. by intros (_ & t & ? & _).
Qed.

(** ** The summary page *)

Lemma display_UN (st : Store) (i : SummaryItem) :
  i ∈ get_all_contacts_summary None st ->
  display_response i = "UN" <-> ~ called (calls st) (sr_name (item_row i)).
Proof.
  intros [Hr Hi]%elem_of_get_all_contacts_summary.
  apply summary_rows_spec in Hr as (Hresp & _).
  rewrite <- latest_call_None, Hi. simpl. rewrite Hresp.
  destruct (latest_call _ _) as [k|]; simpl; [|done].
  split; [|done]. by destruct (calls_response k).
Qed.

(** X17: the summary page shows a sub-list of the full summary, in the
    same order: everything when the filter parameter yields no token, and
    otherwise the rows whose display response is one of the tokens.  The
    token N/A never reaches the query: it is replaced by NA.  The display
    response UN marks exactly the contacts whose name has no call. *)
Theorem summary_filtering `{PyStr} (env : app.Env) (filter_param : option string)
    (st : Store) :
  let page := app.summary env filter_param st in
  let tokens := app.page_active_filters page in
  app.page_contacts page `sublist_of` get_all_contacts_summary None st
  /\ Forall (fun f => f <> "N/A") tokens
  /\ (tokens = [] -> app.page_contacts page = get_all_contacts_summary None st)
  /\ (tokens <> [] ->
      forall i, i ∈ app.page_contacts page
                <-> i ∈ get_all_contacts_summary None st
                    /\ display_response i ∈ tokens)
  /\ (forall i, i ∈ get_all_contacts_summary None st ->
        display_response i = "UN" <-> ~ called (calls st) (sr_name (item_row i))).
Proof.
  intros page tokens. subst page tokens. unfold app.summary. simpl.
  set (tokens := app.parse_filters (default "" filter_param)).
  split; [|split; [|split; [|split]]].
  - destruct tokens as [|f fs]; [done|]. apply sublist_filter.
  - unfold tokens, app.parse_filters. rewrite Forall_fmap.
    apply Forall_forall. intros f _. simpl. by case_decide.
  - by intros ->.
  - intros Hne i. destruct tokens as [|f fs]; [done|].
    unfold get_all_contacts_summary at 1.
    fold (get_all_contacts_summary None st). rewrite list_elem_of_filter. tauto.
  - apply display_UN.
Qed.

Lemma summary_filtering_witness :
  app.page_active_filters (app.summary env_0305 (Some " ,") store_bob_al) = []
  /\ app.page_contacts (app.summary env_0305 (Some " ,") store_bob_al)
     = get_all_contacts_summary None store_bob_al.
Proof.
  assert (app.page_active_filters (app.summary env_0305 (Some " ,") store_bob_al)
          = []) as Hnone by reflexivity.
  split; [exact Hnone|].
  exact (proj1 (proj2 (proj2 (summary_filtering env_0305 (Some " ,") store_bob_al)))
           Hnone).
Defined.

(** ** The month view *)






(** ** The answer of add-call *)

(** X20: an add-call request with a name and a valid response stores the
    call under the next id and answers with the statistics of the date as
    they are after the insert; the message is computed from the target of
    the date (0 when there is none) and from the successful count that
    already includes the new call when its response is A, B or C. *)
Theorem add_call_answer `{PyStr} (env : app.Env) (name response date : option string)
    (st : Store) :
  let n := strip (default "" name) in
  let r := upper (default "" response) in
  let d := default (app.today env) date in
  n <> "" -> r ∈ ["A"; "B"; "C"; "NA"; "DNP"] ->
  exists st',
    app.add_call env name response date st
    = (app.Reply
         (app.JObj [("success", app.JBool true);
                    ("call_id", app.JInt (calls_seq st + 1));
                    ("name", app.JStr n);
                    ("stats", app.json_stats (get_today_stats d st'));
                    ("message",
                     app.json_message
                       (app.get_encouraging_message r
                          (get_today_stats d st' !!! "successful")
                          (app.target_or_0 d st)))])
         200,
       st')
    /\ get_today_stats d st' !!! "successful"
       = (get_today_stats d st !!! "successful"
          + if decide (r ∈ ["A"; "B"; "C"]) then 1 else 0)%Z
    /\ length (calls st') = S (length (calls st)).
Proof.
  intros n r d Hn Hr. unfold app.add_call. fold n r d.
  rewrite decide_False by done. rewrite decide_False by (by intros Hnot).
  destruct (check_response_valid r Hr) as (resp & Hresp & Hstr & _).
  destruct (database.add_call n r d (app.now env 0) st) as [e|[i st']] eqn:E.
  { unfold database.add_call in E. by rewrite Hresp in E. }
  pose proof E as (resp' & Hresp' & -> & Htargets & Hcalls & _)%add_call_inv.
  rewrite Hresp in Hresp'. injection Hresp' as <-.
  exists st'. split; [|split].
  - do 6 f_equal. unfold app.target_or_0, get_daily_target. by rewrite Htargets.
  - rewrite !stats_successful, Hcalls, !filter_app. unfold COUNT.
    rewrite (filter_singleton_True _ _ []) by done. rewrite length_app.
    case_decide as Hs.
    + rewrite (filter_singleton_True _ _ [])
        by (by apply (check_response_successful r)).
      simpl. lia.
    + rewrite (filter_singleton_False _ _ []); [simpl; lia|].
      simpl. intros Hin. apply Hs. rewrite <- Hstr.
      destruct resp; set_solver.
  - rewrite Hcalls, length_app. simpl. lia.
Qed.

Lemma add_call_answer_witness :
  ascii_strip "Bob" <> "" /\ ascii_upper "na" ∈ ["A"; "B"; "C"; "NA"; "DNP"]
  /\ exists st',
       (app.add_call env_0305 (Some "Bob") (Some "na") None store_bob_al).2 = st'
       /\ get_today_stats "2024-03-05" st' !!! "successful"
          = get_today_stats "2024-03-05" store_bob_al !!! "successful".
Proof.
  assert (ascii_strip "Bob" <> "") as Hn by (vm_compute; discriminate).
  assert (ascii_upper "na" ∈ ["A"; "B"; "C"; "NA"; "DNP"]) as Hr
    by (vm_compute; do 3 right; left).
  split; [exact Hn|]. split; [exact Hr|].
  destruct (add_call_answer (H := ascii_PyStr) env_0305 (Some "Bob") (Some "na")
              None store_bob_al Hn Hr) as (st' & Hreply & Hcount & _).
  exists st'. split; [by rewrite Hreply|].
  etrans; [exact Hcount|]. apply Z.add_0_r.
Defined.
